(** * Verification of the ingredient parser and the recipe repository of [meals]

    Shallow embedding of
    - [meals/schemas.py]: [INGREDIENT_REGEX], [CreateIngredientRequest.from_string],
      [UpdateRecipeRequest.get_ingredient];
    - [meals/database/repository.py]: [RecipeRepository.get], [RecipeRepository.create],
      [RecipeRepository.update];
    - [meals/database/models.py]: the tables and their unique columns.

    Python strings are modelled as Rocq [string]s of ASCII characters.  Float
    quantities are modelled by the exact rational value of their decimal text
    ([Q]); the rounding to the nearest binary double is not modelled. *)

From Stdlib Require Import String Ascii List Bool Arith Lia ZArith QArith Sorted Permutation.
Import ListNotations.
Open Scope nat_scope.

(** ** Ingredient requests (schemas.py) *)

Record CreateIngredientRequest := mkCreateIngredientRequest {
  cir_name : string;
  cir_quantity : Q;
  cir_unit : string
}.

Module Parser.

(** Character classes of [INGREDIENT_REGEX = r"([a-zA-Z ]+)([\d.]+)([a-zA-Z ]+)"]. *)
Definition letter_or_space (c : ascii) : bool :=
  let n := nat_of_ascii c in
  ((65 <=? n) && (n <=? 90)) || ((97 <=? n) && (n <=? 122)) || (n =? 32).

Definition digit_or_dot (c : ascii) : bool :=
  let n := nat_of_ascii c in
  ((48 <=? n) && (n <=? 57)) || (n =? 46).

(** A regular expression that is a concatenation of captured greedy
    [(class+)] groups, as [INGREDIENT_REGEX] is. *)
Definition Pattern := list (ascii -> bool).

Definition INGREDIENT_REGEX : Pattern := [letter_or_space; digit_or_dot; letter_or_space].

(** Length of the longest prefix in the class. *)
Fixpoint count_run (p : ascii -> bool) (s : list ascii) : nat :=
  match s with
  | c :: t => if p c then S (count_run p t) else 0
  | [] => 0
  end.

(** Backtracking of a greedy [+]: try [k], [k-1], ..., [1] characters, each
    followed by the rest of the pattern, and keep the first that succeeds. *)
Fixpoint try_greedy (k : nat) (s : list ascii)
    (cont : list ascii -> option (list (list ascii))) : option (list (list ascii)) :=
  match k with
  | 0 => None
  | S k' =>
      match cont (skipn k s) with
      | Some gs => Some (firstn k s :: gs)
      | None => try_greedy k' s cont
      end
  end.

(** Match anchored at the start of [s] (not at its end), returning the groups. *)
Fixpoint match_here (ps : Pattern) (s : list ascii) : option (list (list ascii)) :=
  match ps with
  | [] => Some []
  | p :: ps' => try_greedy (count_run p s) s (match_here ps')
  end.

(** [re.search]: try every start position from left to right. *)
Fixpoint search (ps : Pattern) (s : list ascii) : option (list (list ascii)) :=
  match match_here ps s with
  | Some gs => Some gs
  | None =>
      match s with
      | [] => None
      | _ :: t => search ps t
      end
  end.

(** Python's [str.strip()] on ASCII: drop leading and trailing whitespace. *)
Definition py_space (c : ascii) : bool :=
  let n := nat_of_ascii c in
  ((9 <=? n) && (n <=? 13)) || ((28 <=? n) && (n <=? 32)).

Fixpoint lstrip (s : list ascii) : list ascii :=
  match s with
  | c :: t => if py_space c then lstrip t else s
  | [] => []
  end.

Definition strip (s : list ascii) : list ascii := rev (lstrip (rev (lstrip s))).

Inductive ValidationError :=
| ValueError (msg : string)   (** a [ValueError] raised by a validator *)
| FloatParsing.               (** pydantic's [float_parsing] error *)

Definition malformed_msg : string :=
  "Expected ingredient to be in form: 'name quantity unit'. Where quantity is a number.".

(** The dict returned by [from_string]: name, quantity text, unit. *)
Record IngredientFields := mkFields {
  f_name : string;
  f_quantity : string;
  f_unit : string
}.

(** [CreateIngredientRequest.from_string] on a [str] input. *)
Definition from_string (data : string) : ValidationError + IngredientFields :=
  match search INGREDIENT_REGEX (list_ascii_of_string data) with
  | Some [g1; g2; g3] =>
      inr (mkFields (string_of_list_ascii (strip g1))
                    (string_of_list_ascii g2)
                    (string_of_list_ascii (strip g3)))
  | _ => inl (ValueError malformed_msg)
  end.

(** Pydantic's lax [float] validation of a string, on strings made of digits
    and dots (the only strings group 2 can hold): an optional run of digits,
    an optional [.] followed by digits, and at least one digit overall
    ([1], [1.], [.5], [1.5] are accepted; [.] and [1.2.3] are refused).
    This is library behaviour, not code of the repository. *)
Fixpoint pow10 (k : nat) : positive :=
  match k with
  | 0 => 1%positive
  | S k' => (10 * pow10 k')%positive
  end.

Definition digit_value (c : ascii) : Z := Z.of_nat (nat_of_ascii c - 48).

Fixpoint digits_value (acc : Z) (s : list ascii) : Z :=
  match s with
  | [] => acc
  | c :: t => digits_value (10 * acc + digit_value c) t
  end.

Definition all_digits (s : list ascii) : bool :=
  forallb (fun c => (48 <=? nat_of_ascii c) && (nat_of_ascii c <=? 57)) s.

Fixpoint split_dot (s : list ascii) : list ascii * option (list ascii) :=
  match s with
  | [] => ([], None)
  | c :: t =>
      if Ascii.eqb c "."%char then ([], Some t)
      else let '(a, b) := split_dot t in (c :: a, b)
  end.

Definition parse_float (txt : string) : option Q :=
  let s := list_ascii_of_string txt in
  let '(ip, fp) := split_dot s in
  let fp' := match fp with Some f => f | None => [] end in
  if all_digits ip && all_digits fp' && (0 <? length ip + length fp') then
    Some (Qmake (digits_value 0 (ip ++ fp')) (pow10 (length fp')))
  else None.

(** [CreateIngredientRequest.model_validate(data)] for a string [data]: the
    [from_string] validator, then validation of the fields. *)
Definition parse_ingredient (data : string) : ValidationError + CreateIngredientRequest :=
  match from_string data with
  | inl e => inl e
  | inr f =>
      match parse_float (f_quantity f) with
      | None => inl FloatParsing
      | Some q => inr (mkCreateIngredientRequest (f_name f) q (f_unit f))
      end
  end.

(** A letter or space, then a non-empty run of digits and dots, then a
    letter or space, at the start of [t]. *)
Definition pattern_here (t : list ascii) : Prop :=
  exists a g b q, t = a :: g ++ b :: q /\
    letter_or_space a = true /\ g <> [] /\ forallb digit_or_dot g = true /\
    letter_or_space b = true.

Definition pattern_at (s : list ascii) : Prop :=
  exists pre t, s = pre ++ t /\ pattern_here t.

(** [s] splits as [pre ++ g1 ++ g2 ++ g3 ++ post] where [g1] and [g3] are
    maximal runs of letters and spaces around the run [g2] of digits and dots,
    and no numeric run of [s] that is preceded and followed by a letter or
    space starts before [g2]. *)
Definition leftmost_match (s pre g1 g2 g3 post : list ascii) : Prop :=
  s = pre ++ g1 ++ g2 ++ g3 ++ post /\
  g1 <> [] /\ forallb letter_or_space g1 = true /\
  g2 <> [] /\ forallb digit_or_dot g2 = true /\
  g3 <> [] /\ forallb letter_or_space g3 = true /\
  (forall pre' c, pre = pre' ++ [c] -> letter_or_space c = false) /\
  (forall c post', post = c :: post' -> letter_or_space c = false) /\
  (forall p' t', s = p' ++ t' -> pattern_here t' -> length pre + length g1 <= S (length p')).

(** The decomposition in the words of the specification (not the code): the
    first maximal run of digits and dots; what precedes it, trimmed, is the
    name; what follows it, trimmed, is the unit. *)
Fixpoint spec_split_aux (pre s : list ascii) : option (list ascii * list ascii * list ascii) :=
  match s with
  | [] => None
  | c :: t =>
      if digit_or_dot c
      then Some (rev pre, firstn (count_run digit_or_dot s) s, skipn (count_run digit_or_dot s) s)
      else spec_split_aux (c :: pre) t
  end.

Definition spec_parse_ingredient_line (data : string) : option CreateIngredientRequest :=
  match spec_split_aux [] (list_ascii_of_string data) with
  | Some (pre, run, post) =>
      match parse_float (string_of_list_ascii run) with
      | Some q => Some (mkCreateIngredientRequest (string_of_list_ascii (strip pre)) q
                          (string_of_list_ascii (strip post)))
      | None => None
      end
  | None => None
  end.

End Parser.

(** ** Tables (models.py) *)

Record StoredIngredient := mkStoredIngredient {
  ing_pk : nat;
  ing_name : string          (** [unique=True] *)
}.

Record RecipeIngredient := mkRecipeIngredient {
  ri_pk : nat;
  ri_ingredient : StoredIngredient;
  ri_quantity : Q;
  ri_unit : string
}.

Definition ri_name (ri : RecipeIngredient) : string := ing_name (ri_ingredient ri).

Record StoredRecipe := mkStoredRecipe {
  recipe_pk : nat;
  recipe_name : string;       (** [unique=True] *)
  recipe_instructions : string;
  recipe_user_pk : nat;
  recipe_ingredients : list RecipeIngredient
}.

(** The database as seen by the session; [db_next_pk] allocates primary keys
    (one counter for all tables). *)
Record Db := mkDb {
  db_recipes : list StoredRecipe;
  db_ingredients : list StoredIngredient;
  db_next_pk : nat
}.

(** ** Requests (schemas.py) *)

Record CreateRecipeRequest := mkCreateRecipeRequest {
  crr_name : string;
  crr_ingredients : list CreateIngredientRequest;
  crr_instructions : string
}.

Record UpdateRecipeRequest := mkUpdateRecipeRequest {
  urr_pk : nat;
  urr_name : string;
  urr_ingredients : list CreateIngredientRequest;
  urr_instructions : string
}.

(** [UpdateRecipeRequest.get_ingredient]: the first entry with that name. *)
Fixpoint get_ingredient (ingredients : list CreateIngredientRequest) (name : string)
    : option CreateIngredientRequest :=
  match ingredients with
  | [] => None
  | i :: rest => if String.eqb (cir_name i) name then Some i else get_ingredient rest name
  end.

(** ** Python sets of strings

    A set is a duplicate-free list; iteration follows first insertion
    (Python's own order is hash-based; no claim depends on it). *)

Definition set_mem (x : string) (s : list string) : bool := existsb (String.eqb x) s.

Fixpoint set_of_aux (seen : list string) (l : list string) : list string :=
  match l with
  | [] => rev seen
  | x :: t => if set_mem x seen then set_of_aux seen t else set_of_aux (x :: seen) t
  end.

Definition set_of (l : list string) : list string := set_of_aux [] l.

Definition set_diff (a b : list string) : list string := filter (fun x => negb (set_mem x b)) a.

Definition set_union (a b : list string) : list string := set_of (a ++ b).

(** ** The session: a state and error monad *)

Inductive MealsError :=
| RecipeAlreadyExistsError
| RecipeDoesNotExistError
| IntegrityError.            (** a unique constraint refused at flush *)

(** Statements sent to the database, in order. *)
Inductive Query :=
| SelectRecipeByName (name : string) (user_pk : nat)
| SelectRecipeByPk (pk : nat) (user_pk : nat)
| SelectIngredientByName (name : string)
| FlushStmt.

Record Session := mkSession {
  sess_db : Db;
  sess_log : list Query
}.

Definition M (A : Type) : Type := Session -> (MealsError + A) * Session.

Definition ret {A} (a : A) : M A := fun s => (inr a, s).

Definition bind {A B} (m : M A) (f : A -> M B) : M B :=
  fun s => match m s with
           | (inl e, s') => (inl e, s')
           | (inr a, s') => f a s'
           end.

Notation "x <- m ;; k" := (bind m (fun x => k))
  (at level 61, m at next level, right associativity).
Notation "m ;;; k" := (bind m (fun _ => k))
  (at level 61, right associativity).

Definition raise {A} (e : MealsError) : M A := fun s => (inl e, s).

Definition send (q : Query) : M unit :=
  fun s => (inr tt, mkSession (sess_db s) (sess_log s ++ [q])).

Definition read {A} (f : Db -> A) : M A := fun s => (inr (f (sess_db s)), s).

Definition modify (f : Db -> Db) : M unit :=
  fun s => (inr tt, mkSession (f (sess_db s)) (sess_log s)).

Definition fresh_pk : M nat :=
  fun s => let d := sess_db s in
           (inr (db_next_pk d),
            mkSession (mkDb (db_recipes d) (db_ingredients d) (S (db_next_pk d))) (sess_log s)).

(** ** Statements *)

Definition find_recipe_by_name (d : Db) (name : string) (user_pk : nat) : option StoredRecipe :=
  find (fun r => String.eqb (recipe_name r) name && (recipe_user_pk r =? user_pk)) (db_recipes d).

Definition find_recipe_by_pk (d : Db) (pk user_pk : nat) : option StoredRecipe :=
  find (fun r => (recipe_pk r =? pk) && (recipe_user_pk r =? user_pk)) (db_recipes d).

(** [select(StoredIngredient).filter_by(name=name)]: exact comparison
    (SQLite's default [BINARY] collation), over every recipe. *)
Definition find_ingredient (d : Db) (name : string) : option StoredIngredient :=
  find (fun i => String.eqb (ing_name i) name) (db_ingredients d).

Definition select_recipe_by_name (name : string) (user_pk : nat) : M (option StoredRecipe) :=
  send (SelectRecipeByName name user_pk);;; read (fun d => find_recipe_by_name d name user_pk).

Definition select_recipe_by_pk (pk user_pk : nat) : M (option StoredRecipe) :=
  send (SelectRecipeByPk pk user_pk);;; read (fun d => find_recipe_by_pk d pk user_pk).

Definition select_ingredient_by_name (name : string) : M (option StoredIngredient) :=
  send (SelectIngredientByName name);;; read (fun d => find_ingredient d name).

Definition add_ingredient (i : StoredIngredient) : M unit :=
  modify (fun d => mkDb (db_recipes d) (db_ingredients d ++ [i]) (db_next_pk d)).

(** Write a recipe object back: every row with its primary key is replaced,
    or it is inserted when there is none. *)
Definition save_db (r : StoredRecipe) (d : Db) : Db :=
  let rs := db_recipes d in
  let rs' := if existsb (fun x => recipe_pk x =? recipe_pk r) rs
             then map (fun x => if recipe_pk x =? recipe_pk r then r else x) rs
             else rs ++ [r] in
  mkDb rs' (db_ingredients d) (db_next_pk d).

Definition save_recipe (r : StoredRecipe) : M unit := modify (save_db r).

Fixpoint nodup_names (l : list string) : bool :=
  match l with
  | [] => true
  | x :: t => negb (set_mem x t) && nodup_names t
  end.

(** [session.flush()]: the unique columns [recipes.name] and
    [ingredients.name] are checked. *)
Definition flush : M unit :=
  send FlushStmt;;;
  ok <- read (fun d => nodup_names (map recipe_name (db_recipes d))
                       && nodup_names (map ing_name (db_ingredients d)));;
  if ok then ret tt else raise IntegrityError.

(** ** [RecipeRepository.create] *)

(** The ingredient loop of [create]; it runs under [session.no_autoflush], so
    a lookup does not see the ingredients created earlier in the loop, which
    stay pending until the final flush. *)
Fixpoint create_ingredients (ings : list CreateIngredientRequest)
    : M (list RecipeIngredient * list StoredIngredient) :=
  match ings with
  | [] => ret ([], [])
  | ing :: rest =>
      found <- select_ingredient_by_name (cir_name ing);;
      p <- match found with
           | Some i => ret (i, [])
           | None =>
               pk <- fresh_pk;;
               let i := mkStoredIngredient pk (cir_name ing) in
               ret (i, [i])
           end;;
      let '(ingredient, pend) := p in
      assoc_pk <- fresh_pk;;
      p' <- create_ingredients rest;;
      let '(ris, pending) := p' in
      ret (mkRecipeIngredient assoc_pk ingredient (cir_quantity ing) (cir_unit ing) :: ris,
           pend ++ pending)
  end.

Definition create (recipe_data : CreateRecipeRequest) (user_pk : nat) : M StoredRecipe :=
  recipe <- select_recipe_by_name (crr_name recipe_data) user_pk;;
  match recipe with
  | Some _ => raise RecipeAlreadyExistsError
  | None =>
      p <- create_ingredients (crr_ingredients recipe_data);;
      let '(ris, pending) := p in
      pk <- fresh_pk;;
      let stored_recipe :=
        mkStoredRecipe pk (crr_name recipe_data) (crr_instructions recipe_data) user_pk ris in
      modify (fun d => mkDb (db_recipes d) (db_ingredients d ++ pending) (db_next_pk d));;;
      save_recipe stored_recipe;;;
      flush;;;
      ret stored_recipe
  end.

(** ** [RecipeRepository.update] *)

(** The first loop of [update], on one existing association: its quantity and
    unit are overwritten in place (same association, same ingredient). *)
Definition update_existing (recipe_data : UpdateRecipeRequest) (to_update : list string)
    (existing : RecipeIngredient) : RecipeIngredient :=
  if negb (set_mem (ri_name existing) to_update) then existing
  else
    match get_ingredient (urr_ingredients recipe_data) (ri_name existing) with
    | Some new_i =>
        mkRecipeIngredient (ri_pk existing) (ri_ingredient existing)
                           (cir_quantity new_i) (cir_unit new_i)
    | None => existing
    end.

(** The [for new in to_add] loop.  The session autoflushes before each
    lookup, so an ingredient created earlier in the loop is visible. *)
Fixpoint add_new (recipe_data : UpdateRecipeRequest) (to_add : list string)
    : M (list RecipeIngredient) :=
  match to_add with
  | [] => ret []
  | new :: rest =>
      match get_ingredient (urr_ingredients recipe_data) new with
      | None => add_new recipe_data rest
      | Some new_i =>
          found <- select_ingredient_by_name (cir_name new_i);;
          ingredient <- match found with
                        | Some i => ret i
                        | None =>
                            pk <- fresh_pk;;
                            let i := mkStoredIngredient pk (cir_name new_i) in
                            add_ingredient i;;;
                            ret i
                        end;;
          assoc_pk <- fresh_pk;;
          others <- add_new recipe_data rest;;
          ret (mkRecipeIngredient assoc_pk ingredient (cir_quantity new_i) (cir_unit new_i)
               :: others)
      end
  end.

(** Unique constraints are checked once, at the final flush (an autoflush
    that fails earlier raises the same error). *)
Definition update (recipe_data : UpdateRecipeRequest) (user_pk : nat) : M StoredRecipe :=
  existing_recipe <- select_recipe_by_pk (urr_pk recipe_data) user_pk;;
  match existing_recipe with
  | None => raise RecipeDoesNotExistError
  | Some existing_recipe =>
      let existing_ingredient_names :=
        set_of (map ri_name (recipe_ingredients existing_recipe)) in
      let new_ingredient_names := set_of (map cir_name (urr_ingredients recipe_data)) in
      let to_delete := set_diff existing_ingredient_names new_ingredient_names in
      let to_add := set_diff new_ingredient_names existing_ingredient_names in
      let to_update := set_union existing_ingredient_names new_ingredient_names in
      let updated :=
        map (update_existing recipe_data to_update) (recipe_ingredients existing_recipe) in
      let kept := filter (fun i => negb (set_mem (ri_name i) to_delete)) updated in
      added <- add_new recipe_data to_add;;
      let r := mkStoredRecipe (recipe_pk existing_recipe) (urr_name recipe_data)
                 (urr_instructions recipe_data) (recipe_user_pk existing_recipe)
                 (kept ++ added) in
      save_recipe r;;;
      flush;;;
      ret r
  end.

(** ** The sets computed by [update], named *)

Definition existing_names_of (old : StoredRecipe) : list string :=
  set_of (map ri_name (recipe_ingredients old)).

Definition new_names_of (req : UpdateRecipeRequest) : list string :=
  set_of (map cir_name (urr_ingredients req)).

Definition to_add_of (req : UpdateRecipeRequest) (old : StoredRecipe) : list string :=
  set_diff (new_names_of req) (existing_names_of old).

Definition kept_of (req : UpdateRecipeRequest) (old : StoredRecipe) : list RecipeIngredient :=
  filter (fun i => negb (set_mem (ri_name i) (set_diff (existing_names_of old) (new_names_of req))))
    (map (update_existing req (set_union (existing_names_of old) (new_names_of req)))
       (recipe_ingredients old)).

(** A requested entry equal to an existing association. *)
Definition as_request (ri : RecipeIngredient) : CreateIngredientRequest :=
  mkCreateIngredientRequest (ri_name ri) (ri_quantity ri) (ri_unit ri).

(** ** Bookkeeping views of a session *)

Definition ingredients_of (s : Session) := db_ingredients (sess_db s).
Definition next_of (s : Session) := db_next_pk (sess_db s).

(** ** [IngredientResponse.__str__]: [f"{name} {quantity} {unit}"], with the
    float already printed to [quantity_repr] *)

Definition ingredient_response_str (name quantity_repr unit : string) : string :=
  (name ++ " " ++ quantity_repr ++ " " ++ unit)%string.


(** ** Views of the database used by the properties below *)

Definition absent_in (d : Db) (n : string) : bool :=
  match find_ingredient d n with None => true | Some _ => false end.


(** The unique constraints of [recipes.name] and [ingredients.name], as checked by a flush. *)
Definition flush_ok (d : Db) : bool :=
  nodup_names (map recipe_name (db_recipes d)) && nodup_names (map ing_name (db_ingredients d)).


Fixpoint nodup_pks (l : list nat) : bool :=
  match l with
  | [] => true
  | x :: t => negb (existsb (Nat.eqb x) t) && nodup_pks t
  end.

Definition wf_db (d : Db) : bool := flush_ok d && nodup_pks (map recipe_pk (db_recipes d)).

(** ** [RecipeRepository.get_all] *)

(** [ORDER BY key]: an insertion sort on the key's byte order. *)
Fixpoint insert_by {A} (key : A -> string) (x : A) (l : list A) : list A :=
  match l with
  | [] => [x]
  | y :: t => if String.leb (key x) (key y) then x :: l else y :: insert_by key x t
  end.

Definition order_by {A} (key : A -> string) (l : list A) : list A :=
  fold_right (insert_by key) [] l.

Definition get_all (d : Db) (user_pk : nat) (has_ingredients : bool) : list StoredRecipe :=
  let recipes := order_by recipe_name (filter (fun r => recipe_user_pk r =? user_pk) (db_recipes d)) in
  if has_ingredients then filter (fun r => 0 <? length (recipe_ingredients r)) recipes
  else recipes.

Definition key_le {A} (key : A -> string) (a b : A) : Prop := String.leb (key a) (key b) = true.

(** ** [RecipeRepository.is_like]: SQLAlchemy renders [ilike] on SQLite as
    [lower(name) LIKE lower(pattern)]; [lower] and [LIKE] fold ASCII case only,
    [%] matches any run and [_] any one character (no ESCAPE clause). *)

Definition ascii_lower (c : ascii) : ascii :=
  let n := nat_of_ascii c in
  if (65 <=? n) && (n <=? 90) then ascii_of_nat (n + 32) else c.

Definition sql_lower (s : string) : list ascii := map ascii_lower (list_ascii_of_string s).

Fixpoint like_match (p s : list ascii) : bool :=
  match p with
  | [] => match s with [] => true | _ :: _ => false end
  | c :: p' =>
      if Ascii.eqb c "%"%char then
        (fix go (s : list ascii) : bool :=
           like_match p' s || match s with [] => false | _ :: s' => go s' end) s
      else if Ascii.eqb c "_"%char then
        match s with [] => false | _ :: s' => like_match p' s' end
      else
        match s with
        | [] => false
        | d :: s' => Ascii.eqb (ascii_lower c) (ascii_lower d) && like_match p' s'
        end
  end.

Definition is_like (d : Db) (snippet : string) (user_pk : nat) : list StoredRecipe :=
  filter (fun r => like_match (sql_lower ("%" ++ snippet ++ "%")) (sql_lower (recipe_name r))
                   && (recipe_user_pk r =? user_pk))
    (db_recipes d).

Definition not_wildcard (c : ascii) : bool :=
  negb (Ascii.eqb c "%"%char) && negb (Ascii.eqb c "_"%char).

(** ** Validation and presentation of recipes (schemas.py) *)

(** [CreateRecipeRequest.both_or_neither_ingredients_and_instructions]:
    [None] is the [ValueError]. *)
Definition both_or_neither_ingredients_and_instructions (d : CreateRecipeRequest)
    : option CreateRecipeRequest :=
  let has_ingredients := match crr_ingredients d with [] => false | _ :: _ => true end in
  let has_instructions := negb (String.eqb (crr_instructions d) EmptyString) in
  if xorb has_ingredients has_instructions then None else Some d.

(** [RecipeResponse.anchor]: [name.replace(' ', '-')]. *)
Fixpoint anchor (name : string) : string :=
  match name with
  | EmptyString => EmptyString
  | String c rest => String (if Ascii.eqb c " "%char then "-"%char else c) (anchor rest)
  end.

(** ** [UserRepository], [TimingsRepository] and [PlanRepository] *)

Module OtherRepos.

(** Rows of the [users], [timings] and [planned_days] tables.  A [time] or a
    [date] is its ordinal (minutes of the day, days since an epoch): SQLite
    stores them as ISO strings, whose order is the chronological one. *)
Record User := mkUser {
  user_pk : nat;
  user_name : string          (** [unique=True] *)
}.

Record StoredTimings := mkStoredTimings {
  timings_pk : nat;
  timings_finish_time : nat;
  timings_steps : string;     (** [steps.model_dump_json()] *)
  timings_user_pk : nat
}.

Record StoredPlannedDay := mkStoredPlannedDay {
  plan_pk : nat;
  plan_day : nat;             (** [unique=True] *)
  plan_recipe_pk : nat;
  plan_user_pk : nat
}.

(** [TimingsCreate], with its steps already serialised to JSON. *)
Record TimingsCreate := mkTimingsCreate {
  tc_steps_json : string;
  tc_finish_time : nat
}.

Record Store := mkStore {
  st_users : list User;
  st_timings : list StoredTimings;
  st_plans : list StoredPlannedDay;
  st_next_pk : nat
}.

Inductive StoreError :=
| UserAlreadyExistsError
| TimingAlreadyExistsError
| StoreIntegrityError         (** a unique constraint refused at flush *)
| NoResultFound
| MultipleResultsFound.

(** The unique constraints checked by [session.flush()]. *)
Definition store_flush_ok (st : Store) : bool :=
  nodup_names (map user_name (st_users st)) && nodup_pks (map plan_day (st_plans st)).

Definition flush_store {A} (a : A) (st : Store) : (StoreError + A) * Store :=
  if store_flush_ok st then (inr a, st) else (inl StoreIntegrityError, st).

(** [UserRepository.get_by_name]: the first user with that name. *)
Definition get_by_name (user_name0 : string) (st : Store) : option User :=
  find (fun u => String.eqb (user_name u) user_name0) (st_users st).

(** [UserRepository.create] *)
Definition create_user (user_name0 : string) (st : Store) : (StoreError + User) * Store :=
  match get_by_name user_name0 st with
  | Some _ => (inl UserAlreadyExistsError, st)
  | None =>
      let u := mkUser (st_next_pk st) user_name0 in
      flush_store u (mkStore (st_users st ++ [u]) (st_timings st) (st_plans st) (S (st_next_pk st)))
  end.

(** [TimingsRepository.get]: the first timing of the user. *)
Definition get_timings (user_pk0 : nat) (st : Store) : option StoredTimings :=
  find (fun t => timings_user_pk t =? user_pk0) (st_timings st).

Definition add_timings (tc : TimingsCreate) (user_pk0 : nat) (st : Store) : StoredTimings * Store :=
  let t := mkStoredTimings (st_next_pk st) (tc_finish_time tc) (tc_steps_json tc) user_pk0 in
  (t, mkStore (st_users st) (st_timings st ++ [t]) (st_plans st) (S (st_next_pk st))).

(** [TimingsRepository.create] *)
Definition create_timings (tc : TimingsCreate) (user_pk0 : nat) (st : Store)
    : (StoreError + StoredTimings) * Store :=
  match get_timings user_pk0 st with
  | Some _ => (inl TimingAlreadyExistsError, st)
  | None => let (t, st') := add_timings tc user_pk0 st in flush_store t st'
  end.

(** [TimingsRepository.update]: the row found is updated in place. *)
Definition update_timings (tc : TimingsCreate) (user_pk0 : nat) (st : Store)
    : (StoreError + StoredTimings) * Store :=
  match get_timings user_pk0 st with
  | None => let (t, st') := add_timings tc user_pk0 st in flush_store t st'
  | Some t =>
      let t' := mkStoredTimings (timings_pk t) (tc_finish_time tc) (tc_steps_json tc) (timings_user_pk t) in
      flush_store t'
        (mkStore (st_users st)
           (map (fun x => if timings_pk x =? timings_pk t then t' else x) (st_timings st))
           (st_plans st) (st_next_pk st))
  end.

(** [Result.one()] *)
Definition one {A} (l : list A) : StoreError + A :=
  match l with
  | [x] => inr x
  | [] => inl NoResultFound
  | _ :: _ :: _ => inl MultipleResultsFound
  end.

(** [PlanRepository.update] for a [PlannedDay] with [day] and [recipe.pk]. *)
Definition update_plan (day recipe_pk0 user_pk0 : nat) (st : Store)
    : (StoreError + StoredPlannedDay) * Store :=
  let '(planned, st1) :=
    match find (fun p => (plan_day p =? day) && (plan_user_pk p =? user_pk0)) (st_plans st) with
    | None =>
        let p := mkStoredPlannedDay (st_next_pk st) day recipe_pk0 user_pk0 in
        (p, mkStore (st_users st) (st_timings st) (st_plans st ++ [p]) (S (st_next_pk st)))
    | Some p =>
        let p' := mkStoredPlannedDay (plan_pk p) (plan_day p) recipe_pk0 (plan_user_pk p) in
        (p', mkStore (st_users st) (st_timings st)
               (map (fun x => if plan_pk x =? plan_pk p then p' else x) (st_plans st))
               (st_next_pk st))
    end in
  if store_flush_ok st1 then
    (one (filter (fun p => (plan_pk p =? plan_pk planned) && (plan_user_pk p =? user_pk0)) (st_plans st1)),
     st1)
  else (inl StoreIntegrityError, st1).

(** [PlanRepository.get_range]: [day BETWEEN start_date AND end_date]. *)
Definition get_range (start_date end_date user_pk0 : nat) (st : Store) : list StoredPlannedDay :=
  filter (fun p => (start_date <=? plan_day p) && (plan_day p <=? end_date) && (plan_user_pk p =? user_pk0))
    (st_plans st).

(** [PlanRepository.summarise]: the user's recipes [LEFT OUTER JOIN]
    planned days on [recipe_pk], grouped and ordered by recipe name, with
    [count(planned_days.pk)] and [max(planned_days.day)]. *)
Definition join_rows (plans : list StoredPlannedDay) (r : StoredRecipe)
    : list (string * option StoredPlannedDay) :=
  match filter (fun p => plan_recipe_pk p =? recipe_pk r) plans with
  | [] => [(recipe_name r, None)]
  | ps => map (fun p => (recipe_name r, Some p)) ps
  end.

Definition sql_count (vals : list (option StoredPlannedDay)) : nat :=
  length (filter (fun v => match v with Some _ => true | None => false end) vals).

Definition sql_max_day (vals : list (option StoredPlannedDay)) : option nat :=
  fold_left (fun acc v => match v, acc with
                          | None, _ => acc
                          | Some p, None => Some (plan_day p)
                          | Some p, Some m => Some (Nat.max m (plan_day p))
                          end) vals None.

Definition summarise (d : Db) (plans : list StoredPlannedDay) (user_pk0 : nat)
    : list (string * nat * option nat) :=
  let rows := flat_map (join_rows plans) (filter (fun r => recipe_user_pk r =? user_pk0) (db_recipes d)) in
  map (fun n => let vals := map snd (filter (fun x => String.eqb (fst x) n) rows) in
                (n, sql_count vals, sql_max_day vals))
    (order_by (fun n => n) (set_of (map fst rows))).

Definition timings_wf (st : Store) : bool :=
  nodup_pks (map timings_pk (st_timings st)) && nodup_pks (map timings_user_pk (st_timings st)) &&
  forallb (fun t => timings_pk t <? st_next_pk st) (st_timings st).

Definition plans_pk_ok (st : Store) : bool :=
  nodup_pks (map plan_pk (st_plans st)) && forallb (fun p => plan_pk p <? st_next_pk st) (st_plans st).

Definition max_step (acc : option nat) (v : option StoredPlannedDay) : option nat :=
  match v, acc with
  | None, _ => acc
  | Some p, None => Some (plan_day p)
  | Some p, Some m => Some (Nat.max m (plan_day p))
  end.

End OtherRepos.

(** ** Example data: two recipes sharing a store of ingredients *)

Open Scope string_scope.

Definition ex_salt := mkStoredIngredient 1 "Salt".

Definition ex_carrot := mkStoredIngredient 2 "Carrot".

Definition ex_delete := mkStoredIngredient 3 "Delete".

Definition ex_carrot_assoc := mkRecipeIngredient 11 ex_carrot 10 "units".

Definition ex_delete_assoc := mkRecipeIngredient 12 ex_delete 1 "stuff".

Definition ex_soup :=
  mkStoredRecipe 10 "Soup" "Boil" 7 [ex_carrot_assoc; ex_delete_assoc].

Definition ex_stew :=
  mkStoredRecipe 13 "Stew" "Simmer" 7 [mkRecipeIngredient 14 ex_salt 1 "pinch"].

Definition ex_session := mkSession (mkDb [ex_soup; ex_stew] [ex_salt; ex_carrot; ex_delete] 20) [].

Definition ex_carrot20 := mkCreateIngredientRequest "Carrot" 20 "units".

Definition ex_salt1 := mkCreateIngredientRequest "Salt" 1 "tsp".

Definition ex_req_keep := mkUpdateRecipeRequest 10 "Soup" [ex_carrot20] "Boil".

Definition ex_req_add :=
  mkUpdateRecipeRequest 10 "Soup"
    [mkCreateIngredientRequest "Carrot" 10 "units"; ex_salt1;
     mkCreateIngredientRequest "Delete" 1 "stuff"] "Boil".

Definition ex_req_remove :=
  mkUpdateRecipeRequest 10 "Soup" [mkCreateIngredientRequest "Carrot" 10 "units"] "Boil".

Definition ex_req_same :=
  mkUpdateRecipeRequest 10 "Soup" (map as_request (recipe_ingredients ex_soup)) "Boil".

Definition ex_req_missing := mkUpdateRecipeRequest 99 "Soup" [] "Boil".

Definition ex_req_rename :=
  mkUpdateRecipeRequest 10 "Vegetable soup" (map as_request (recipe_ingredients ex_soup))
    "Boil for an hour".

Definition ex_create_soup := mkCreateRecipeRequest "Soup" [ex_salt1] "Stir".

Definition ex_pepper1 := mkCreateIngredientRequest "Pepper" 1 "tsp".

Definition ex_create_curry := mkCreateRecipeRequest "Curry" [ex_salt1; ex_pepper1] "Cook".

Definition ex_create_pepper_twice :=
  mkCreateRecipeRequest "Curry" [ex_pepper1; mkCreateIngredientRequest "Pepper" 2 "tsp"] "Cook".

Definition ex_req_to_stew := mkUpdateRecipeRequest 10 "Stew" [] "Boil".

Definition ex_plans :=
  [OtherRepos.mkStoredPlannedDay 2 100 10 1; OtherRepos.mkStoredPlannedDay 3 101 10 7;
   OtherRepos.mkStoredPlannedDay 4 102 13 7].

Definition ex_store :=
  OtherRepos.mkStore [OtherRepos.mkUser 1 "ann"] [OtherRepos.mkStoredTimings 5 1020 "[]" 1]
    [OtherRepos.mkStoredPlannedDay 2 100 10 1] 6.

Definition ex_timings := OtherRepos.mkTimingsCreate "[]" 1080.

Close Scope string_scope.

Ltac split_conj := repeat match goal with |- _ /\ _ => split end.

(** * Lemmas on the set helpers and lookups *)

Lemma set_mem_In x l : set_mem x l = true <-> In x l.
Proof.
  unfold set_mem. rewrite existsb_exists. split.
  - intros [y [Hy E]]. apply String.eqb_eq in E. now subst.
  - intros H. exists x. split; [exact H | apply String.eqb_refl].
Qed.

Lemma set_mem_false x l : set_mem x l = false <-> ~ In x l.
Proof.
  rewrite <- set_mem_In. destruct (set_mem x l); split; congruence.
Qed.

Lemma set_of_aux_In x seen l : In x (set_of_aux seen l) <-> In x seen \/ In x l.
Proof.
  revert seen. induction l as [|y t IH]; intros seen; simpl.
  - rewrite <- in_rev. tauto.
  - destruct (set_mem y seen) eqn:E.
    + rewrite IH. apply set_mem_In in E. split; [tauto|].
      intros [H|[<-|H]]; auto.
    + rewrite IH. simpl. tauto.
Qed.

Lemma set_of_In x l : In x (set_of l) <-> In x l.
Proof. unfold set_of. rewrite set_of_aux_In. simpl. tauto. Qed.

Lemma set_diff_In x a b : In x (set_diff a b) <-> In x a /\ ~ In x b.
Proof.
  unfold set_diff. rewrite filter_In, negb_true_iff, set_mem_false. tauto.
Qed.

Lemma set_union_In x a b : In x (set_union a b) <-> In x a \/ In x b.
Proof. unfold set_union. rewrite set_of_In, in_app_iff. tauto. Qed.

Lemma get_ingredient_some l x n :
  get_ingredient l x = Some n -> In n l /\ cir_name n = x.
Proof.
  induction l as [|i t IH]; simpl; [discriminate|].
  destruct (String.eqb (cir_name i) x) eqn:E.
  - intros H. inversion H; subst. apply String.eqb_eq in E. auto.
  - intros H. destruct (IH H). auto.
Qed.

Lemma get_ingredient_none l x :
  get_ingredient l x = None -> ~ In x (map cir_name l).
Proof.
  induction l as [|i t IH]; simpl; [auto|].
  destruct (String.eqb (cir_name i) x) eqn:E; [discriminate|].
  intros H [H'|H']; [subst; rewrite String.eqb_refl in E; discriminate | exact (IH H H')].
Qed.

(** The entry found is the only one with that name. *)
Lemma get_ingredient_unique l n :
  In n l -> (forall n', In n' l -> cir_name n' = cir_name n -> n' = n) ->
  get_ingredient l (cir_name n) = Some n.
Proof.
  intros Hin Hu. destruct (get_ingredient l (cir_name n)) as [m|] eqn:E.
  - apply get_ingredient_some in E as [Hm Hn]. f_equal. now apply Hu.
  - apply get_ingredient_none in E. exfalso. apply E. now apply in_map.
Qed.

Lemma get_ingredient_as_request l ri :
  NoDup (map ri_name l) -> In ri l ->
  get_ingredient (map as_request l) (ri_name ri) = Some (as_request ri).
Proof.
  induction l as [|x t IH]; simpl; [contradiction|].
  intros Hnd Hin. inversion Hnd as [|? ? Hx Hnd']; subst.
  destruct (String.eqb (ri_name x) (ri_name ri)) eqn:E.
  - apply String.eqb_eq in E. destruct Hin as [<-|Hin]; [reflexivity|].
    exfalso. apply Hx. rewrite E. now apply in_map.
  - destruct Hin as [<-|Hin]; [rewrite String.eqb_refl in E; discriminate|].
    now apply IH.
Qed.

Lemma find_ingredient_app d1 d2 x :
  find (fun i => String.eqb (ing_name i) x) (d1 ++ d2) =
  match find (fun i => String.eqb (ing_name i) x) d1 with
  | Some i => Some i
  | None => find (fun i => String.eqb (ing_name i) x) d2
  end.
Proof. induction d1 as [|i t IH]; simpl; [reflexivity|]. destruct (String.eqb _ _); auto. Qed.

Lemma find_ingredient_name d x i : find_ingredient d x = Some i -> ing_name i = x /\ In i (db_ingredients d).
Proof.
  unfold find_ingredient. intros H. apply find_some in H as [H E].
  apply String.eqb_eq in E. auto.
Qed.

(** * The ingredient loop of [update] *)

Lemma find_ingredient_extend d d' l x :
  db_ingredients d' = db_ingredients d ++ l ->
  find_ingredient d' x =
  match find_ingredient d x with
  | Some i => Some i
  | None => find (fun i => String.eqb (ing_name i) x) l
  end.
Proof. intros E. unfold find_ingredient. rewrite E. apply find_ingredient_app. Qed.


Lemma add_new_spec req l s added s1 :
  add_new req l s = (inr added, s1) ->
  db_recipes (sess_db s1) = db_recipes (sess_db s) /\
  next_of s <= next_of s1 /\
  (exists created, ingredients_of s1 = ingredients_of s ++ created /\
     forall i, In i created ->
       find_ingredient (sess_db s) (ing_name i) = None /\ next_of s <= ing_pk i) /\
  (forall ri, In ri added -> In (ri_name ri) l /\ next_of s <= ri_pk ri) /\
  (forall x n, In x l -> get_ingredient (urr_ingredients req) x = Some n ->
     exists ri, In ri added /\ ri_name ri = x /\
       ri_quantity ri = cir_quantity n /\ ri_unit ri = cir_unit n /\
       next_of s <= ri_pk ri /\
       (forall i, find_ingredient (sess_db s) x = Some i -> ri_ingredient ri = i) /\
       (find_ingredient (sess_db s) x = None ->
          next_of s <= ing_pk (ri_ingredient ri) /\ In (ri_ingredient ri) (ingredients_of s1))).
Proof.
  revert s added s1. induction l as [|new rest IH]; intros s added s1 H.
  - simpl in H. inversion H; subst. split; [reflexivity|]. split; [lia|].
    split; [exists []; split; [now rewrite app_nil_r | simpl; tauto]|].
    split; simpl; tauto.
  - simpl in H. destruct (get_ingredient (urr_ingredients req) new) as [new_i|] eqn:G.
    + apply get_ingredient_some in G as G'. destruct G' as [_ Gn]. subst new.
      unfold bind, select_ingredient_by_name, send, read, fresh_pk, add_ingredient, modify, ret
        in H; simpl in H.
      destruct (find_ingredient (sess_db s) (cir_name new_i)) as [i0|] eqn:F.
      * (* the ingredient exists: reused *)
        destruct (add_new req rest _) as [[e|others] s2] eqn:A; [discriminate|].
        inversion H; subst; clear H.
        destruct (IH _ _ _ A) as (Hr & Hn & (created & Hc & Hcr) & Hall & Hex).
        unfold next_of, ingredients_of in *; simpl in *.
        split; [exact Hr|]. split; [lia|].
        split.
        { exists created. split; [exact Hc|]. intros i Hi. destruct (Hcr i Hi) as [Hf Hp].
          split; [|lia]. exact Hf. }
        split.
        { intros ri [<-|Hri]; simpl.
          - split; [left|lia]. unfold ri_name; simpl.
            apply find_ingredient_name in F. destruct F as [-> _]. reflexivity.
          - destruct (Hall ri Hri). split; [now right | lia]. }
        intros x n [<-|Hx] Hg.
        { rewrite G in Hg. inversion Hg; subst n.
          eexists. split; [left; reflexivity|]. simpl.
          apply find_ingredient_name in F as F'. destruct F' as [Fn _].
          unfold ri_name. simpl. rewrite Fn.
          split_conj; try reflexivity; try lia.
          - intros i Hi. congruence.
          - intros Hn'. congruence. }
        destruct (Hex x n Hx Hg) as (ri & Hri & Hnm & Hq & Hu & Hp & Hs & Hnone).
        exists ri. split_conj; try assumption; try (right; assumption); try lia.
        { intros Hn'. destruct (Hnone Hn'); split; [lia | assumption]. }
      * (* a new ingredient is created *)
        destruct (add_new req rest _) as [[e|others] s2] eqn:A; [discriminate|].
        inversion H; subst; clear H.
        destruct (IH _ _ _ A) as (Hr & Hn & (created & Hc & Hcr) & Hall & Hex).
        unfold next_of, ingredients_of in *; simpl in *.
        set (i0 := mkStoredIngredient (db_next_pk (sess_db s)) (cir_name new_i)) in *.
        split; [exact Hr|]. split; [lia|].
        split.
        { exists (i0 :: created). split; [rewrite Hc, <- app_assoc; reflexivity|].
          intros i [<-|Hi]; simpl.
          - split; [exact F | lia].
          - destruct (Hcr i Hi) as [Hf Hp]. split; [|lia].
            erewrite find_ingredient_extend in Hf by reflexivity.
            destruct (find_ingredient (sess_db s) (ing_name i)); [discriminate | reflexivity]. }
        split.
        { intros ri [<-|Hri]; simpl.
          - split; [left; reflexivity | lia].
          - destruct (Hall ri Hri). split; [now right | lia]. }
        intros x n [<-|Hx] Hg.
        { rewrite G in Hg. inversion Hg; subst n.
          eexists. split; [left; reflexivity|]. simpl.
          unfold ri_name. simpl.
          split_conj; try reflexivity; try lia.
          - intros i Hi. congruence.
          - intros _. split; [lia|]. rewrite Hc. apply in_or_app. left. apply in_or_app. right. left. reflexivity. }
        destruct (Hex x n Hx Hg) as (ri & Hri & Hnm & Hq & Hu & Hp & Hs & Hnone).
        exists ri. split_conj; try assumption; try (right; assumption); try lia.
        { intros i Hi. apply Hs.
          erewrite find_ingredient_extend by reflexivity. rewrite Hi. reflexivity. }
        { intros Hn'.
          erewrite find_ingredient_extend in Hs, Hnone by reflexivity.
          rewrite Hn' in Hs, Hnone. simpl in Hs, Hnone.
          destruct (String.eqb (cir_name new_i) x) eqn:E.
          - rewrite (Hs i0 eq_refl). simpl. split; [lia|].
            rewrite Hc. apply in_or_app. left. apply in_or_app. right. left. reflexivity.
          - destruct (Hnone eq_refl). split; [lia | assumption]. }
    + destruct (IH _ _ _ H) as (Hr & Hn & Hc & Hall & Hex).
      split; [exact Hr|]. split; [exact Hn|]. split; [exact Hc|].
      split.
      { intros ri Hri. destruct (Hall ri Hri). split; [now right | assumption]. }
      intros x n [<-|Hx] Hg; [congruence|]. exact (Hex x n Hx Hg).
Qed.

(** * Properties of [update] *)

Lemma update_inv req u s r s' :
  update req u s = (inr r, s') ->
  exists old s1 added,
    find_recipe_by_pk (sess_db s) (urr_pk req) u = Some old /\
    add_new req (to_add_of req old)
      (mkSession (sess_db s) (sess_log s ++ [SelectRecipeByPk (urr_pk req) u])) = (inr added, s1) /\
    r = mkStoredRecipe (recipe_pk old) (urr_name req) (urr_instructions req)
          (recipe_user_pk old) (kept_of req old ++ added) /\
    sess_db s' = save_db r (sess_db s1).
Proof.
  unfold update, bind, select_recipe_by_pk, send, read, raise. simpl.
  destruct (find_recipe_by_pk (sess_db s) (urr_pk req) u) as [old|] eqn:F; [|discriminate].
  fold (existing_names_of old) (new_names_of req) (to_add_of req old) (kept_of req old).
  destruct (add_new req (to_add_of req old) _) as [[e|added] s1] eqn:A; [discriminate|].
  unfold save_recipe, modify, flush, bind, send, read, ret, raise. simpl.
  destruct (_ && _); intros H; inversion H; subst.
  exists old, s1, added. auto.
Qed.

Lemma update_existing_name req tu ri : ri_name (update_existing req tu ri) = ri_name ri.
Proof.
  unfold update_existing. destruct (negb _); [reflexivity|].
  destruct (get_ingredient _ _); reflexivity.
Qed.

Lemma kept_of_In req old ri :
  In ri (kept_of req old) <->
  In ri (map (update_existing req (set_union (existing_names_of old) (new_names_of req)))
           (recipe_ingredients old)) /\
  In (ri_name ri) (map cir_name (urr_ingredients req)).
Proof.
  unfold kept_of. rewrite filter_In, negb_true_iff, set_mem_false, set_diff_In.
  unfold existing_names_of, new_names_of. rewrite !set_of_In.
  split.
  - intros [H1 H2]. split; [exact H1|].
    apply in_map_iff in H1 as [x [<- Hx]]. rewrite update_existing_name in *.
    destruct (in_dec string_dec (ri_name x) (map cir_name (urr_ingredients req))); [assumption|].
    exfalso. apply H2. split; [apply in_map; exact Hx | assumption].
  - intros [H1 H2]. split; [exact H1|]. tauto.
Qed.

Lemma add_new_names req old ri s added s1 :
  add_new req (to_add_of req old) s = (inr added, s1) -> In ri added ->
  In (ri_name ri) (map cir_name (urr_ingredients req)) /\
  ~ In (ri_name ri) (map ri_name (recipe_ingredients old)).
Proof.
  intros A Hri. destruct (add_new_spec _ _ _ _ _ A) as (_ & _ & _ & Hall & _).
  destruct (Hall ri Hri) as [Hin _]. unfold to_add_of, existing_names_of, new_names_of in Hin.
  rewrite set_diff_In, !set_of_In in Hin. exact Hin.
Qed.

Lemma filter_all_true {A} (f : A -> bool) l :
  (forall x, In x l -> f x = true) -> filter f l = l.
Proof.
  induction l as [|x t IH]; simpl; intros H; [reflexivity|].
  rewrite (H x (or_introl eq_refl)), IH; auto.
Qed.

Lemma add_new_total req l s : exists added s1, add_new req l s = (inr added, s1).
Proof.
  revert s. induction l as [|x rest IH]; intros s; simpl; [exists [], s; reflexivity|].
  destruct (get_ingredient _ x) as [new_i|]; [|apply IH].
  unfold bind, select_ingredient_by_name, send, read, fresh_pk, add_ingredient, modify, ret; simpl.
  destruct (find_ingredient _ _);
  match goal with |- context [add_new req rest ?s0] =>
    destruct (IH s0) as (a & s2 & ->) end; eauto.
Qed.

Lemma find_recipe_by_pk_save d d' r old p u :
  find_recipe_by_pk d p u = Some old ->
  recipe_pk r = recipe_pk old -> recipe_user_pk r = recipe_user_pk old ->
  db_recipes d' = db_recipes d ->
  find_recipe_by_pk (save_db r d') p u = Some r.
Proof.
  unfold find_recipe_by_pk, save_db. simpl. intros F Hp Hu ->.
  apply find_some in F as F'. destruct F' as [Hin Hf].
  apply andb_true_iff in Hf as [Hf1 Hf2]. apply Nat.eqb_eq in Hf1, Hf2.
  replace (existsb _ _) with true.
  2:{ symmetry. apply existsb_exists. exists old. split; [exact Hin|]. apply Nat.eqb_eq. congruence. }
  clear Hin. induction (db_recipes d) as [|x t IH]; simpl in *; [discriminate|].
  destruct (recipe_pk x =? recipe_pk r) eqn:E.
  - rewrite Hp, Hu, <- Hf1, <- Hf2, !Nat.eqb_refl. reflexivity.
  - destruct ((recipe_pk x =? p) && (recipe_user_pk x =? u)) eqn:E2.
    + inversion F; subst. apply Nat.eqb_neq in E. congruence.
    + apply IH. exact F.
Qed.

(** Claim C1: when an existing association's ingredient name is requested
    (by a unique requested entry), the updated recipe holds that association
    with the same association key and the same ingredient identity, carrying
    the requested quantity and unit. *)
Theorem update_keep_step req u s r s' old ri n :
  update req u s = (inr r, s') ->
  find_recipe_by_pk (sess_db s) (urr_pk req) u = Some old ->
  In ri (recipe_ingredients old) ->
  In n (urr_ingredients req) -> cir_name n = ri_name ri ->
  (forall n', In n' (urr_ingredients req) -> cir_name n' = cir_name n -> n' = n) ->
  In (mkRecipeIngredient (ri_pk ri) (ri_ingredient ri) (cir_quantity n) (cir_unit n))
     (recipe_ingredients r).
Proof.
  intros U F Hri Hn Hname Huniq.
  destruct (update_inv _ _ _ _ _ U) as (old' & s1 & added & F' & A & -> & _).
  rewrite F in F'. inversion F'; subst old'. clear F'. simpl.
  apply in_or_app. left. apply kept_of_In. split.
  - apply in_map_iff. exists ri. split; [|exact Hri].
    unfold update_existing.
    replace (set_mem (ri_name ri) _) with true.
    2:{ symmetry. apply set_mem_In, set_union_In. left.
        unfold existing_names_of. apply set_of_In, in_map. exact Hri. }
    simpl. rewrite <- Hname, (get_ingredient_unique _ _ Hn Huniq). reflexivity.
  - unfold ri_name. simpl. fold (ri_name ri). rewrite <- Hname. apply in_map. exact Hn.
Qed.

(** Claim C2: a requested name absent from the recipe yields a new association
    with the requested quantity and unit; its ingredient is the one found by
    exact name in the whole store if there is one, otherwise a new one; and
    every ingredient created by the update has a name that was absent from
    the store. *)
Theorem update_add_step req u s r s' old n :
  update req u s = (inr r, s') ->
  find_recipe_by_pk (sess_db s) (urr_pk req) u = Some old ->
  In n (urr_ingredients req) ->
  (forall n', In n' (urr_ingredients req) -> cir_name n' = cir_name n -> n' = n) ->
  ~ In (cir_name n) (map ri_name (recipe_ingredients old)) ->
  (exists ri,
     In ri (recipe_ingredients r) /\ ri_name ri = cir_name n /\
     ri_quantity ri = cir_quantity n /\ ri_unit ri = cir_unit n /\
     db_next_pk (sess_db s) <= ri_pk ri /\
     (forall i, find_ingredient (sess_db s) (cir_name n) = Some i -> ri_ingredient ri = i) /\
     (find_ingredient (sess_db s) (cir_name n) = None ->
        db_next_pk (sess_db s) <= ing_pk (ri_ingredient ri) /\
        In (ri_ingredient ri) (db_ingredients (sess_db s')))) /\
  (forall i, In i (db_ingredients (sess_db s')) ->
     In i (db_ingredients (sess_db s)) \/
     (find_ingredient (sess_db s) (ing_name i) = None /\ db_next_pk (sess_db s) <= ing_pk i)).
Proof.
  intros U F Hn Huniq Hnew.
  destruct (update_inv _ _ _ _ _ U) as (old' & s1 & added & F' & A & Er & Es).
  rewrite F in F'. inversion F'; subst old'. clear F'.
  destruct (add_new_spec _ _ _ _ _ A) as (_ & _ & (created & Hc & Hcr) & _ & Hex).
  unfold ingredients_of, next_of in *. simpl in *.
  assert (Hdb : db_ingredients (sess_db s') = db_ingredients (sess_db s1))
    by (rewrite Es; reflexivity).
  split.
  - assert (Hx : In (cir_name n) (to_add_of req old)).
    { unfold to_add_of, existing_names_of, new_names_of.
      apply set_diff_In. rewrite !set_of_In. split; [apply in_map; exact Hn | exact Hnew]. }
    destruct (Hex _ _ Hx (get_ingredient_unique _ _ Hn Huniq))
      as (ri & Hri & Hnm & Hq & Hu & Hp & Hs & Hnone).
    exists ri. rewrite Er. simpl. rewrite Hdb.
    split; [apply in_or_app; right; exact Hri|]. split_conj; auto.
  - intros i Hi. rewrite Hdb, Hc in Hi. apply in_app_or in Hi as [Hi|Hi]; [now left|].
    right. exact (Hcr i Hi).
Qed.

(** Claim C3: an existing association whose name is not requested is dropped
    from the recipe, while every ingredient of the store remains stored. *)
Theorem update_remove_step req u s r s' old ri :
  update req u s = (inr r, s') ->
  find_recipe_by_pk (sess_db s) (urr_pk req) u = Some old ->
  In ri (recipe_ingredients old) ->
  ~ In (ri_name ri) (map cir_name (urr_ingredients req)) ->
  (forall ri', In ri' (recipe_ingredients r) -> ri_name ri' <> ri_name ri) /\
  (forall i, In i (db_ingredients (sess_db s)) -> In i (db_ingredients (sess_db s'))).
Proof.
  intros U F Hri Hout.
  destruct (update_inv _ _ _ _ _ U) as (old' & s1 & added & F' & A & Er & Es).
  rewrite F in F'. inversion F'; subst old'. clear F'.
  destruct (add_new_spec _ _ _ _ _ A) as (_ & _ & (created & Hc & _) & _ & _).
  unfold ingredients_of in Hc. simpl in Hc.
  split.
  - intros ri' Hri' Heq. rewrite Er in Hri'. simpl in Hri'.
    apply in_app_or in Hri' as [Hk|Ha].
    + apply kept_of_In in Hk as [_ Hk]. rewrite Heq in Hk. contradiction.
    + destruct (add_new_names _ _ _ _ _ _ A Ha) as [Hk _]. rewrite Heq in Hk. contradiction.
  - intros i Hi. rewrite Es. simpl. rewrite Hc. apply in_or_app. now left.
Qed.

Lemma to_add_of_identical req old :
  urr_ingredients req = map as_request (recipe_ingredients old) -> to_add_of req old = [].
Proof.
  intros E. unfold to_add_of, new_names_of, existing_names_of. rewrite E, map_map.
  simpl. destruct (set_diff _ _) as [|x t] eqn:D; [reflexivity|].
  exfalso. assert (Hx : In x (x :: t)) by now left. rewrite <- D, set_diff_In in Hx.
  tauto.
Qed.

(** Claim C4: updating a recipe with exactly its current associations as the
    request leaves the associations, the ingredient store and the key counter
    unchanged, and the recipe itself unchanged when name and instructions are
    also the current ones. *)
Theorem update_idempotent req u s r s' old :
  update req u s = (inr r, s') ->
  find_recipe_by_pk (sess_db s) (urr_pk req) u = Some old ->
  NoDup (map ri_name (recipe_ingredients old)) ->
  urr_ingredients req = map as_request (recipe_ingredients old) ->
  recipe_ingredients r = recipe_ingredients old /\
  db_ingredients (sess_db s') = db_ingredients (sess_db s) /\
  db_next_pk (sess_db s') = db_next_pk (sess_db s) /\
  (urr_name req = recipe_name old -> urr_instructions req = recipe_instructions old -> r = old).
Proof.
  intros U F Hnd E.
  destruct (update_inv _ _ _ _ _ U) as (old' & s1 & added & F' & A & Er & Es).
  rewrite F in F'. inversion F'; subst old'. clear F'.
  rewrite (to_add_of_identical _ _ E) in A. simpl in A. inversion A; subst s1 added. clear A.
  assert (K : kept_of req old = recipe_ingredients old).
  { unfold kept_of. rewrite filter_all_true.
    - rewrite <- (map_id (recipe_ingredients old)) at 2. apply map_ext_in.
      intros ri Hri. unfold update_existing.
      replace (set_mem (ri_name ri) _) with true.
      2:{ symmetry. apply set_mem_In, set_union_In. left.
          unfold existing_names_of. apply set_of_In, in_map. exact Hri. }
      simpl. rewrite E, (get_ingredient_as_request _ _ Hnd Hri).
      destruct ri. reflexivity.
    - intros x Hx. apply negb_true_iff, set_mem_false. rewrite set_diff_In.
      unfold existing_names_of, new_names_of. rewrite !set_of_In, E, map_map. simpl.
      apply in_map_iff in Hx as [y [<- Hy]]. rewrite update_existing_name.
      intros [_ H]. apply H. apply in_map. exact Hy. }
  rewrite Er, Es. simpl. rewrite K, app_nil_r.
  split; [reflexivity|]. split; [reflexivity|]. split; [reflexivity|].
  intros Hn Hi. rewrite Hn, Hi. destruct old. reflexivity.
Qed.

(** Claim C9: an update of a recipe that does not exist for the user fails
    with [RecipeDoesNotExistError] after the single lookup, leaving the
    database as it was; and this error only arises in that case, with no
    mutation. *)
Theorem update_missing_recipe req u s :
  (find_recipe_by_pk (sess_db s) (urr_pk req) u = None ->
   update req u s =
   (inl RecipeDoesNotExistError,
    mkSession (sess_db s) (sess_log s ++ [SelectRecipeByPk (urr_pk req) u]))) /\
  (forall s', update req u s = (inl RecipeDoesNotExistError, s') ->
   find_recipe_by_pk (sess_db s) (urr_pk req) u = None /\ sess_db s' = sess_db s).
Proof.
  unfold update, bind, select_recipe_by_pk, send, read, raise. simpl.
  destruct (find_recipe_by_pk (sess_db s) (urr_pk req) u) as [old|] eqn:F.
  - split; [discriminate|]. intros s'.
    destruct (add_new_total req (to_add_of req old)
                (mkSession (sess_db s) (sess_log s ++ [SelectRecipeByPk (urr_pk req) u])))
      as (added & s1 & A).
    fold (existing_names_of old) (new_names_of req) (to_add_of req old) (kept_of req old).
    rewrite A. unfold save_recipe, modify, flush, bind, send, read, ret, raise. simpl.
    destruct (_ && _); discriminate.
  - split; [reflexivity|]. intros s' H. inversion H. auto.
Qed.

(** Claim C10: a successful update stores the request's name and instructions
    in the recipe, which is what the database then holds under its key. *)
Theorem update_sets_name_instructions req u s r s' :
  update req u s = (inr r, s') ->
  recipe_name r = urr_name req /\ recipe_instructions r = urr_instructions req /\
  find_recipe_by_pk (sess_db s') (urr_pk req) u = Some r.
Proof.
  intros U.
  destruct (update_inv _ _ _ _ _ U) as (old & s1 & added & F & A & Er & Es).
  destruct (add_new_spec _ _ _ _ _ A) as (Hr & _).
  subst r. simpl. split; [reflexivity|]. split; [reflexivity|].
  rewrite Es. eapply find_recipe_by_pk_save; [exact F | reflexivity | reflexivity | exact Hr].
Qed.

(** * Properties of [create] *)

Lemma create_ingredients_total ings s :
  exists p s1, create_ingredients ings s = (inr p, s1).
Proof.
  revert s. induction ings as [|ing rest IH]; intros s; simpl; [exists ([], []), s; reflexivity|].
  unfold bind, select_ingredient_by_name, send, read, fresh_pk, ret; simpl.
  destruct (find_ingredient _ _); simpl;
  match goal with |- context [create_ingredients rest ?s0] =>
    destruct (IH s0) as ([a b] & s2 & ->) end; eauto.
Qed.

(** Claim C8: creating a recipe whose name already exists for the user fails
    with [RecipeAlreadyExistsError] after the single recipe lookup, before any
    ingredient lookup, leaving the database (so the ingredient store) as it
    was; and this error only arises in that case. *)
Theorem create_duplicate_rejected d u s :
  (forall r0, find_recipe_by_name (sess_db s) (crr_name d) u = Some r0 ->
   create d u s =
   (inl RecipeAlreadyExistsError,
    mkSession (sess_db s) (sess_log s ++ [SelectRecipeByName (crr_name d) u]))) /\
  (forall s', create d u s = (inl RecipeAlreadyExistsError, s') ->
   find_recipe_by_name (sess_db s) (crr_name d) u <> None /\ sess_db s' = sess_db s).
Proof.
  unfold create, bind, select_recipe_by_name, send, read, raise. simpl.
  destruct (find_recipe_by_name (sess_db s) (crr_name d) u) as [r0|] eqn:F.
  - split.
    + intros r1 _. reflexivity.
    + intros s' H. inversion H. split; [discriminate | reflexivity].
  - split; [discriminate|]. intros s'.
    destruct (create_ingredients_total (crr_ingredients d)
                (mkSession (sess_db s) (sess_log s ++ [SelectRecipeByName (crr_name d) u])))
      as ([ris pending] & s1 & ->).
    unfold fresh_pk, save_recipe, modify, flush, bind, send, read, ret, raise. simpl.
    destruct (_ && _); discriminate.
Qed.

(** * The ingredient line parser *)

Import Parser.

Lemma letter_not_digit c : letter_or_space c = true -> digit_or_dot c = false.
Proof.
  destruct c as [b0 b1 b2 b3 b4 b5 b6 b7].
  destruct b0, b1, b2, b3, b4, b5, b6, b7; vm_compute; congruence.
Qed.

Lemma count_run_app p g r :
  forallb p g = true -> count_run p (g ++ r) = length g + count_run p r.
Proof.
  induction g as [|c g IH]; simpl; [reflexivity|].
  intros H. apply andb_true_iff in H as [Hc Hg]. rewrite Hc, IH; auto.
Qed.

Lemma count_run_le p s : count_run p s <= length s.
Proof. induction s as [|c t IH]; simpl; [lia|]. destruct (p c); simpl; lia. Qed.

Lemma count_run_prefix p s j :
  j <= count_run p s -> forallb p (firstn j s) = true /\ length (firstn j s) = j.
Proof.
  revert j. induction s as [|c t IH]; intros j Hj; simpl in *.
  - assert (j = 0) by lia. subst. auto.
  - destruct j as [|j]; [auto|]. destruct (p c) eqn:E; [|lia].
    simpl. rewrite E. destruct (IH j) as [H1 H2]; [lia|]. rewrite H1, H2. auto.
Qed.

Lemma count_run_skipn p s : count_run p (skipn (count_run p s) s) = 0.
Proof.
  induction s as [|c t IH]; simpl; [reflexivity|].
  destruct (p c) eqn:E; simpl; [exact IH | rewrite E; reflexivity].
Qed.

Lemma try_greedy_top k s cont gs :
  k <> 0 -> cont (skipn k s) = Some gs -> try_greedy k s cont = Some (firstn k s :: gs).
Proof. destruct k; [congruence|]. simpl. intros _ ->. reflexivity. Qed.

Lemma try_greedy_top_ne k s cont :
  k <> 0 -> cont (skipn k s) <> None -> try_greedy k s cont <> None.
Proof.
  destruct k; [congruence|]. intros _ H. cbn [try_greedy].
  destruct (cont (skipn (S k) s)); [discriminate | congruence].
Qed.

Lemma try_greedy_sound k s cont gs :
  try_greedy k s cont = Some gs ->
  exists j gs', 0 < j <= k /\ gs = firstn j s :: gs' /\ cont (skipn j s) = Some gs'.
Proof.
  induction k as [|k IH]; intros H; [discriminate|]. cbn [try_greedy] in H.
  destruct (cont (skipn (S k) s)) as [gs'|] eqn:E.
  - inversion H. exists (S k), gs'. split; [lia | split; [reflexivity | exact E]].
  - destruct (IH H) as (j & gs' & Hj & ? & ?). exists j, gs'.
    split; [lia | split; assumption].
Qed.

(** Wherever a letter or space is followed by digits and dots and then by a
    letter or space, the pattern matches there. *)
Lemma match_here_succeeds g1 g2 b q :
  g1 <> [] -> forallb letter_or_space g1 = true ->
  g2 <> [] -> forallb digit_or_dot g2 = true -> letter_or_space b = true ->
  match_here INGREDIENT_REGEX (g1 ++ g2 ++ b :: q) <> None.
Proof.
  intros H1 L1 H2 D2 Lb. unfold INGREDIENT_REGEX. simpl.
  assert (C2 : count_run letter_or_space (g2 ++ b :: q) = 0).
  { destruct g2 as [|c g2]; [congruence|]. simpl in *. apply andb_true_iff in D2 as [Dc _].
    destruct (letter_or_space c) eqn:E; [|reflexivity].
    apply letter_not_digit in E. congruence. }
  rewrite count_run_app, C2, Nat.add_0_r by exact L1.
  apply try_greedy_top_ne; [now destruct g1|].
  rewrite skipn_app, Nat.sub_diag, skipn_all. simpl.
  rewrite count_run_app by exact D2. simpl.
  rewrite (letter_not_digit b Lb), Nat.add_0_r.
  apply try_greedy_top_ne; [now destruct g2|].
  rewrite skipn_app, Nat.sub_diag, skipn_all. simpl. rewrite Lb. discriminate.
Qed.

Lemma try_greedy_last k s :
  try_greedy k s (fun _ => Some []) =
  match k with 0 => None | S _ => Some [firstn k s] end.
Proof. destruct k; reflexivity. Qed.

Lemma match_here_sound t gs :
  match_here INGREDIENT_REGEX t = Some gs ->
  exists g1 g2 g3 post,
    gs = [g1; g2; g3] /\ t = g1 ++ g2 ++ g3 ++ post /\
    g1 <> [] /\ forallb letter_or_space g1 = true /\
    g2 <> [] /\ forallb digit_or_dot g2 = true /\
    g3 <> [] /\ forallb letter_or_space g3 = true /\
    count_run letter_or_space post = 0.
Proof.
  unfold INGREDIENT_REGEX. simpl. intros H.
  apply try_greedy_sound in H as (j1 & gs1 & Hj1 & -> & H).
  apply try_greedy_sound in H as (j2 & gs2 & Hj2 & -> & H).
  rewrite try_greedy_last in H.
  remember (count_run letter_or_space (skipn j2 (skipn j1 t))) as k3 eqn:K3.
  destruct k3 as [|k3']; [discriminate|]. inversion H; subst gs2. clear H.
  destruct (count_run_prefix _ _ _ (proj2 Hj1)) as [L1 N1].
  destruct (count_run_prefix _ _ _ (proj2 Hj2)) as [L2 N2].
  destruct (count_run_prefix letter_or_space (skipn j2 (skipn j1 t)) (S k3')) as [L3 N3];
    [lia|].
  exists (firstn j1 t), (firstn j2 (skipn j1 t)), (firstn (S k3') (skipn j2 (skipn j1 t))),
         (skipn (S k3') (skipn j2 (skipn j1 t))).
  split; [reflexivity|].
  split; [rewrite !firstn_skipn; reflexivity|].
  split; [intros E; rewrite E in N1; simpl in N1; lia|]. split; [exact L1|].
  split; [intros E; rewrite E in N2; simpl in N2; lia|]. split; [exact L2|].
  split; [intros E; rewrite E in N3; simpl in N3; lia|]. split; [exact L3|].
  rewrite K3. apply count_run_skipn.
Qed.

Lemma search_some ps s gs :
  search ps s = Some gs ->
  exists pre t, s = pre ++ t /\ match_here ps t = Some gs /\
    (forall p' t', s = p' ++ t' -> length p' < length pre -> match_here ps t' = None).
Proof.
  induction s as [|c s IH]; simpl.
  - destruct (match_here ps []) eqn:E; [|discriminate]. intros H. inversion H; subst.
    exists [], []. split; [reflexivity|]. split; [exact E|]. simpl. lia.
  - destruct (match_here ps (c :: s)) eqn:E.
    + intros H. inversion H; subst. exists [], (c :: s).
      split; [reflexivity|]. split; [exact E|]. simpl. lia.
    + intros H. destruct (IH H) as (pre & t & -> & Ht & Hfirst).
      exists (c :: pre), t. split; [reflexivity|]. split; [exact Ht|].
      intros [|c' p'] t' Hs Hl.
      * simpl in Hs. rewrite <- Hs. exact E.
      * simpl in Hs, Hl. inversion Hs as [[Hc Hs']]. apply (Hfirst p'); [exact Hs' | lia].
Qed.

Lemma search_none ps s :
  search ps s = None -> forall p' t', s = p' ++ t' -> match_here ps t' = None.
Proof.
  induction s as [|c s IH]; simpl.
  - destruct (match_here ps []) eqn:E; [discriminate|]. intros _ p' t' Hs.
    destruct p'; [simpl in Hs; subst; exact E | discriminate].
  - destruct (match_here ps (c :: s)) eqn:E; [discriminate|]. intros H [|c' p'] t' Hs.
    + simpl in Hs. subst. exact E.
    + inversion Hs; subst. exact (IH H p' t' eq_refl).
Qed.

Lemma search_none_iff s : search INGREDIENT_REGEX s = None <-> ~ pattern_at s.
Proof.
  split.
  - intros H (pre & t & Hs & a & g & b & post & -> & La & Hg & Dg & Lb).
    apply (match_here_succeeds [a] g b post); try assumption.
    + discriminate.
    + simpl. rewrite La. reflexivity.
    + apply (search_none _ _ H pre). exact Hs.
  - intros Hn. destruct (search INGREDIENT_REGEX s) as [gs|] eqn:S; [|reflexivity].
    exfalso. apply Hn.
    destruct (search_some _ _ _ S) as (pre & t & -> & Ht & _).
    destruct (match_here_sound _ _ Ht)
      as (g1 & g2 & g3 & post & _ & -> & N1 & L1 & N2 & D2 & N3 & L3 & _).
    destruct (exists_last N1) as (g1' & a & ->).
    destruct g3 as [|b g3']; [congruence|].
    exists (pre ++ g1'), (a :: g2 ++ b :: g3' ++ post).
    split; [rewrite <- !app_assoc; reflexivity|].
    exists a, g2, b, (g3' ++ post). split; [reflexivity|].
    rewrite forallb_app in L1. apply andb_true_iff in L1 as [_ La]. simpl in La, L3.
    rewrite andb_true_r in La. apply andb_true_iff in L3 as [Lb _].
    auto.
Qed.

Lemma second_char_conflict x y w a g b q :
  letter_or_space y = true ->
  x :: y :: w = a :: g ++ b :: q -> g <> [] -> forallb digit_or_dot g = true -> False.
Proof.
  intros Ly E Hg D. destruct g as [|g0 g]; [congruence|].
  inversion E; subst. simpl in D.
  apply andb_true_iff in D as [Dy _]. rewrite (letter_not_digit _ Ly) in Dy. discriminate.
Qed.

Lemma search_leftmost s gs :
  search INGREDIENT_REGEX s = Some gs ->
  exists pre g1 g2 g3 post, gs = [g1; g2; g3] /\ leftmost_match s pre g1 g2 g3 post.
Proof.
  intros S. destruct (search_some _ _ _ S) as (pre & t & Hs & Ht & Hfirst).
  destruct (match_here_sound _ _ Ht)
    as (g1 & g2 & g3 & post & -> & Et & N1 & L1 & N2 & D2 & N3 & L3 & Cpost).
  subst t. exists pre, g1, g2, g3, post. split; [reflexivity|].
  unfold leftmost_match. split; [exact Hs|]. do 6 (split; [assumption|]).
  split; [|split].
  - intros pre' c ->. destruct (letter_or_space c) eqn:Lc; [exfalso | reflexivity].
    subst s. destruct g3 as [|b g3']; [congruence|].
    apply (match_here_succeeds (c :: g1) g2 b (g3' ++ post)).
    + discriminate.
    + simpl. rewrite Lc, L1. reflexivity.
    + exact N2.
    + exact D2.
    + simpl in L3. apply andb_true_iff in L3. tauto.
    + apply (Hfirst pre'); [rewrite <- app_assoc; reflexivity | rewrite length_app; simpl; lia].
  - intros c post' ->. simpl in Cpost. destruct (letter_or_space c); [discriminate | reflexivity].
  - intros p' t' Hs' Hp. rewrite Hs in Hs'.
    destruct Hp as (a & g & b & q & Eq & La & Hg & Dg & Lb).
    apply app_eq_app in Hs' as [l [[Hpre Ht']|[Hp' Hr]]].
    + destruct l as [|x l].
      * rewrite app_nil_r in Hpre. subst p'. simpl in Ht'.
        destruct g1 as [|x [|y u]]; simpl; try lia.
        exfalso. simpl in L1. apply andb_true_iff in L1 as [_ L1].
        apply andb_true_iff in L1 as [Ly _].
        apply (second_char_conflict x y (u ++ g2 ++ g3 ++ post) a g b q Ly).
        -- rewrite <- Eq, Ht'. reflexivity.
        -- exact Hg.
        -- exact Dg.
      * exfalso.
        assert (Hn : match_here INGREDIENT_REGEX t' = None).
        { apply (Hfirst p'); [subst s pre; rewrite <- app_assoc, <- Ht'; reflexivity|].
          rewrite Hpre, length_app. simpl. lia. }
        rewrite Eq in Hn. revert Hn.
        apply (match_here_succeeds [a] g b q);
          [discriminate | simpl; rewrite La; reflexivity | exact Hg | exact Dg | exact Lb].
    + subst p'. rewrite length_app.
      apply app_eq_app in Hr as [m [[Hg1 Ht']|[Hl Hr]]].
      * subst g1. destruct m as [|x [|y m']]; rewrite length_app; simpl; try lia.
        exfalso. rewrite forallb_app in L1. apply andb_true_iff in L1 as [_ L1].
        simpl in L1. apply andb_true_iff in L1 as [_ L1]. apply andb_true_iff in L1 as [Ly _].
        apply (second_char_conflict x y (m' ++ g2 ++ g3 ++ post) a g b q Ly).
        -- rewrite <- Eq, Ht'. reflexivity.
        -- exact Hg.
        -- exact Dg.
      * subst l. rewrite length_app. lia.
Qed.

(** Claim C5 (amended): the parser takes the leftmost match of a non-empty
    letter/space run, a non-empty digit/dot run and a letter/space run, each as
    long as possible around the numeric run; the name and unit are the trimmed
    outer runs, the numeric run is read as a float (a failure there is a
    validation error), text outside the match is ignored, and when there is
    no match the result is the malformed-ingredient error. *)
Theorem parse_ingredient_regex_decomposition data :
  match parse_ingredient data with
  | inr r =>
      exists pre g1 g2 g3 post,
        leftmost_match (list_ascii_of_string data) pre g1 g2 g3 post /\
        cir_name r = string_of_list_ascii (strip g1) /\
        parse_float (string_of_list_ascii g2) = Some (cir_quantity r) /\
        cir_unit r = string_of_list_ascii (strip g3)
  | inl FloatParsing =>
      exists pre g1 g2 g3 post,
        leftmost_match (list_ascii_of_string data) pre g1 g2 g3 post /\
        parse_float (string_of_list_ascii g2) = None
  | inl (ValueError _) => ~ pattern_at (list_ascii_of_string data)
  end.
Proof.
  unfold parse_ingredient, from_string.
  destruct (search INGREDIENT_REGEX (list_ascii_of_string data)) as [gs|] eqn:S.
  - destruct (search_leftmost _ _ S) as (pre & g1 & g2 & g3 & post & -> & Hm).
    simpl. destruct (parse_float (string_of_list_ascii g2)) as [q|] eqn:P.
    + exists pre, g1, g2, g3, post. simpl. auto.
    + exists pre, g1, g2, g3, post. auto.
  - apply search_none_iff. exact S.
Qed.

Lemma count_run_stop p c t : p c = false -> count_run p (c :: t) = 0.
Proof. simpl. intros ->. reflexivity. Qed.

Lemma app_same_length {A} (l1 r1 l2 r2 : list A) :
  l1 ++ r1 = l2 ++ r2 -> length l1 = length l2 -> l1 = l2 /\ r1 = r2.
Proof.
  revert l2. induction l1 as [|x l1 IH]; intros [|y l2] E L; simpl in *; try discriminate; auto.
  injection E as -> E. destruct (IH l2 E) as [-> ->]; [lia|]. auto.
Qed.

Lemma leftmost_match_here s pre g1 g2 g3 post :
  leftmost_match s pre g1 g2 g3 post ->
  exists p' t', s = p' ++ t' /\ pattern_here t' /\ S (length p') = length pre + length g1.
Proof.
  intros (Es & N1 & L1 & N2 & D2 & N3 & L3 & _).
  destruct (exists_last N1) as (g1a & a & ->).
  destruct g3 as [|b g3t]; [congruence|].
  rewrite forallb_app in L1. apply andb_true_iff in L1 as [_ La]. simpl in La.
  rewrite andb_true_r in La. simpl in L3. apply andb_true_iff in L3 as [Lb _].
  exists (pre ++ g1a), (a :: g2 ++ b :: g3t ++ post). split_conj.
  - rewrite Es. rewrite <- !app_assoc. simpl. reflexivity.
  - exists a, g2, b, (g3t ++ post). split_conj; auto.
  - rewrite !length_app. simpl. lia.
Qed.

Lemma leftmost_match_start s pre g1 g2 g3 post pre' g1' g2' g3' post' :
  leftmost_match s pre g1 g2 g3 post -> leftmost_match s pre' g1' g2' g3' post' ->
  length pre' + length g1' <= length pre + length g1.
Proof.
  intros M (_ & _ & _ & _ & _ & _ & _ & _ & _ & Left).
  destruct (leftmost_match_here _ _ _ _ _ _ M) as (p' & t' & Es & Ht & L).
  rewrite <- L. exact (Left p' t' Es Ht).
Qed.

(** The digit/dot run of a leftmost match is determined by the line. *)
Lemma leftmost_match_numeric_run s pre g1 g2 g3 post pre' g1' g2' g3' post' :
  leftmost_match s pre g1 g2 g3 post -> leftmost_match s pre' g1' g2' g3' post' ->
  g2 = g2'.
Proof.
  intros M M'.
  pose proof (leftmost_match_start _ _ _ _ _ _ _ _ _ _ _ M M') as K1.
  pose proof (leftmost_match_start _ _ _ _ _ _ _ _ _ _ _ M' M) as K2.
  destruct M as (Es & _ & _ & _ & D2 & N3 & L3 & _).
  destruct M' as (Es' & _ & _ & _ & D2' & N3' & L3' & _).
  rewrite app_assoc in Es, Es'. rewrite Es in Es'.
  destruct (app_same_length _ _ _ _ Es') as [_ E]; [rewrite !length_app; lia|].
  destruct g3 as [|b g3t]; [congruence|]. destruct g3' as [|b' g3t']; [congruence|].
  simpl in L3, L3'. apply andb_true_iff in L3 as [Lb _]. apply andb_true_iff in L3' as [Lb' _].
  assert (C : count_run digit_or_dot (g2 ++ (b :: g3t) ++ post) =
              count_run digit_or_dot (g2' ++ (b' :: g3t') ++ post')) by (rewrite E; reflexivity).
  rewrite (count_run_app _ g2), (count_run_app _ g2') in C by assumption. simpl app in C.
  rewrite (count_run_stop _ _ _ (letter_not_digit b Lb)) in C.
  rewrite (count_run_stop _ _ _ (letter_not_digit b' Lb')) in C.
  destruct (app_same_length _ _ _ _ E) as [-> _]; [lia | reflexivity].
Qed.

(** Claim C6 (amended): the parser fails with the malformed-ingredient message
    when the line has no letter or space followed by a digit/dot run and then
    a letter or space; when it has one and the digit/dot run of the leftmost
    such place is not a valid float, it fails with a float parsing error; and
    every failure is a validation error value, one of these two. *)
Theorem parse_failure_conditions data :
  (~ pattern_at (list_ascii_of_string data) ->
   parse_ingredient data = inl (ValueError malformed_msg)) /\
  (forall pre g1 g2 g3 post,
     leftmost_match (list_ascii_of_string data) pre g1 g2 g3 post ->
     parse_float (string_of_list_ascii g2) = None ->
     parse_ingredient data = inl FloatParsing) /\
  (forall e, parse_ingredient data = inl e -> e = ValueError malformed_msg \/ e = FloatParsing).
Proof.
  unfold parse_ingredient, from_string.
  destruct (search INGREDIENT_REGEX (list_ascii_of_string data)) as [gs|] eqn:S.
  - destruct (search_leftmost _ _ S) as (pre & g1 & g2 & g3 & post & -> & Hm).
    split_conj.
    + intros Np. apply search_none_iff in Np. congruence.
    + intros pre' g1' g2' g3' post' M' P.
      rewrite (leftmost_match_numeric_run _ _ _ _ _ _ _ _ _ _ _ Hm M'). simpl. rewrite P. reflexivity.
    + intros e H. simpl in H. destruct (parse_float _); inversion H; auto.
  - split_conj.
    + reflexivity.
    + intros pre g1 g2 g3 post M. exfalso.
      destruct (leftmost_match_here _ _ _ _ _ _ M) as (p' & t' & Es & Ht & _).
      apply search_none_iff in S. exact (S (ex_intro _ p' (ex_intro _ t' (conj Es Ht)))).
    + intros e H. inversion H. auto.
Qed.

Open Scope string_scope.

(** Claim C7: the reference examples: "Garlic 1 clove" and "Flour 2 cups"
    parse to the expected fields, while "Flour" and "Flour z cups" fail
    with the malformed-ingredient message. *)
Theorem parse_reference_examples :
  parse_ingredient "Garlic 1 clove" = inr (mkCreateIngredientRequest "Garlic" (1 # 1) "clove") /\
  parse_ingredient "Flour 2 cups" = inr (mkCreateIngredientRequest "Flour" (2 # 1) "cups") /\
  parse_ingredient "Flour" = inl (ValueError malformed_msg) /\
  parse_ingredient "Flour z cups" = inl (ValueError malformed_msg).
Proof. vm_compute. repeat split. Qed.

(** Counterexample to claim C5 as stated: the text after the numeric run is
    not all kept as the unit; the regex unit stops at the comma. *)
Lemma parse_numeric_run_counterexample :
  spec_parse_ingredient_line "Flour 2 cups, sifted" =
    Some (mkCreateIngredientRequest "Flour" (2 # 1) "cups, sifted") /\
  parse_ingredient "Flour 2 cups, sifted" =
    inr (mkCreateIngredientRequest "Flour" (2 # 1) "cups").
Proof. split; vm_compute; reflexivity. Qed.

(** Counterexample to claim C6 as stated: this line has a numeric run and
    non-empty parts around it, yet the parser rejects it as malformed. *)
Lemma parse_malformed_counterexample :
  spec_parse_ingredient_line "Flour-2 cups" =
    Some (mkCreateIngredientRequest "Flour-" (2 # 1) "cups") /\
  parse_ingredient "Flour-2 cups" = inl (ValueError malformed_msg).
Proof. split; vm_compute; reflexivity. Qed.

Close Scope string_scope.

(** * Further properties of the parser and of [IngredientResponse.__str__] *)

Lemma list_ascii_of_string_append a b :
  list_ascii_of_string (a ++ b) = list_ascii_of_string a ++ list_ascii_of_string b.
Proof. induction a as [|c a IH]; simpl; [reflexivity | now rewrite IH]. Qed.

Lemma lstrip_suffix l : exists p, l = p ++ lstrip l.
Proof.
  induction l as [|c t [p Hp]]; simpl; [exists []; reflexivity|].
  destruct (py_space c); [exists (c :: p); simpl; congruence | exists []; reflexivity].
Qed.

Lemma lstrip_head l : lstrip l = [] \/ exists c t, lstrip l = c :: t /\ py_space c = false.
Proof.
  induction l as [|c t IH]; simpl; [auto|].
  destruct (py_space c) eqn:E; [exact IH | right; eauto].
Qed.

Lemma lstrip_id l : (forall c t, l = c :: t -> py_space c = false) -> lstrip l = l.
Proof.
  destruct l as [|c t]; simpl; [reflexivity|]. intros H. rewrite (H c t eq_refl). reflexivity.
Qed.

Lemma lstrip_idem l : lstrip (lstrip l) = lstrip l.
Proof.
  apply lstrip_id. intros c t E. destruct (lstrip_head l) as [H|(c' & t' & H & Hc)];
  rewrite H in E; [discriminate | inversion E; subst; exact Hc].
Qed.

Lemma strip_idem l : strip (strip l) = strip l.
Proof.
  unfold strip. set (t := lstrip l). set (u := lstrip (rev t)).
  assert (Hu : lstrip (rev u) = rev u).
  { apply lstrip_id. intros d w Ew.
    destruct (lstrip_suffix (rev t)) as [p Hp]. fold u in Hp.
    destruct (lstrip_head l) as [Ht|(c & t' & Ht & Hc)]; fold t in Ht.
    - rewrite Ht in Hp. simpl in Hp. destruct p; [|discriminate].
      simpl in Hp. rewrite <- Hp in Ew. discriminate.
    - rewrite Ht in Hp. simpl in Hp.
      assert (Eu : u = rev w ++ [d]) by (rewrite <- (rev_involutive u), Ew; reflexivity).
      rewrite Eu, app_assoc in Hp. apply app_inj_tail in Hp as [_ <-]. exact Hc. }
  rewrite Hu, rev_involutive. unfold u. rewrite lstrip_idem. reflexivity.
Qed.

Lemma forallb_lstrip p l : forallb p l = true -> forallb p (lstrip l) = true.
Proof.
  destruct (lstrip_suffix l) as [q Hq]. intros H. rewrite Hq, forallb_app in H.
  apply andb_true_iff in H. tauto.
Qed.

Lemma forallb_rev {A} (p : A -> bool) l : forallb p (rev l) = forallb p l.
Proof.
  induction l as [|c t IH]; simpl; [reflexivity|].
  rewrite forallb_app, IH. simpl. rewrite andb_true_r, andb_comm. reflexivity.
Qed.

Lemma forallb_strip p l : forallb p l = true -> forallb p (strip l) = true.
Proof.
  intros H. unfold strip. rewrite forallb_rev. apply forallb_lstrip.
  rewrite forallb_rev. apply forallb_lstrip. exact H.
Qed.

Lemma lstrip_app_nonempty l r : lstrip l <> [] -> lstrip (l ++ r) = lstrip l ++ r.
Proof.
  induction l as [|c t IH]; simpl; [congruence|].
  destruct (py_space c); [exact IH | reflexivity].
Qed.

Lemma lstrip_app_empty l r : lstrip l = [] -> lstrip (l ++ r) = lstrip r.
Proof.
  induction l as [|c t IH]; simpl; [reflexivity|].
  destruct (py_space c); [exact IH | discriminate].
Qed.

Lemma strip_trailing_space l : strip (l ++ [" "%char]) = strip l.
Proof.
  unfold strip. destruct (lstrip l) eqn:E.
  - rewrite (lstrip_app_empty _ _ E). reflexivity.
  - rewrite lstrip_app_nonempty by (rewrite E; discriminate). rewrite E, rev_app_distr. reflexivity.
Qed.

Lemma strip_leading_space l : strip (" "%char :: l) = strip l.
Proof. reflexivity. Qed.

Lemma digits_value_nonneg acc s : (0 <= acc)%Z -> (0 <= digits_value acc s)%Z.
Proof.
  revert acc. induction s as [|c t IH]; intros acc H; cbn [digits_value]; [exact H|].
  apply IH. unfold digit_value. lia.
Qed.

Lemma parse_float_nonneg txt q : parse_float txt = Some q -> (0 <= q)%Q.
Proof.
  unfold parse_float. destruct (split_dot _) as [ip fp].
  destruct (_ && _ && _); [|discriminate]. intros H. inversion H; subst.
  unfold Qle. simpl.
  match goal with |- context [digits_value 0 ?l] =>
    pose proof (digits_value_nonneg 0 l ltac:(lia)) end.
  lia.
Qed.

Lemma letter_not_digit' c : digit_or_dot c = true -> letter_or_space c = false.
Proof.
  intros H. destruct (letter_or_space c) eqn:E; [|reflexivity].
  rewrite (letter_not_digit c E) in H. discriminate.
Qed.

Lemma match_here_cons p ps s :
  match_here (p :: ps) s = try_greedy (count_run p s) s (match_here ps).
Proof. reflexivity. Qed.

Lemma count_run_all p l : forallb p l = true -> count_run p l = length l.
Proof. intros H. rewrite <- (app_nil_r l) at 1. rewrite (count_run_app _ _ _ H). simpl. lia. Qed.

Lemma try_greedy_at k s cont g gs :
  k <> 0 -> firstn k s = g -> cont (skipn k s) = Some gs -> try_greedy k s cont = Some (g :: gs).
Proof. intros Hk <- H. apply try_greedy_top; assumption. Qed.

Lemma match_here_str ln lq lu :
  forallb letter_or_space ln = true ->
  lq <> [] -> forallb digit_or_dot lq = true ->
  forallb letter_or_space lu = true ->
  match_here INGREDIENT_REGEX (ln ++ " "%char :: lq ++ " "%char :: lu) =
  Some [ln ++ [" "%char]; lq; " "%char :: lu].
Proof.
  intros Hn Hq Hd Hu. destruct lq as [|c lq']; [congruence|].
  assert (Hc : letter_or_space c = false).
  { apply letter_not_digit'. simpl in Hd. apply andb_true_iff in Hd. tauto. }
  assert (Hn' : forallb letter_or_space (ln ++ [" "%char]) = true)
    by (rewrite forallb_app, Hn; reflexivity).
  assert (Hu' : forallb letter_or_space (" "%char :: lu) = true) by exact Hu.
  replace (ln ++ " "%char :: (c :: lq') ++ " "%char :: lu)
    with ((ln ++ [" "%char]) ++ (c :: lq') ++ " "%char :: lu)
    by (rewrite <- app_assoc; reflexivity).
  set (g1 := ln ++ [" "%char]) in *. set (g2 := c :: lq') in *. set (g3 := " "%char :: lu) in *.
  unfold INGREDIENT_REGEX. rewrite match_here_cons, (count_run_app _ _ _ Hn').
  replace (count_run letter_or_space (g2 ++ g3)) with 0
    by (unfold g2; simpl; rewrite Hc; reflexivity).
  rewrite Nat.add_0_r. apply try_greedy_at.
  { unfold g1. rewrite length_app. simpl. lia. }
  { rewrite firstn_app, firstn_all, Nat.sub_diag, firstn_O. apply app_nil_r. }
  rewrite skipn_app, skipn_all, Nat.sub_diag, skipn_O, app_nil_l.
  rewrite match_here_cons, (count_run_app _ _ _ Hd).
  replace (count_run digit_or_dot g3) with 0 by reflexivity.
  rewrite Nat.add_0_r. apply try_greedy_at.
  { unfold g2. simpl. discriminate. }
  { rewrite firstn_app, firstn_all, Nat.sub_diag, firstn_O. apply app_nil_r. }
  rewrite skipn_app, skipn_all, Nat.sub_diag, skipn_O, app_nil_l.
  rewrite match_here_cons.
  replace (count_run letter_or_space g3) with (length g3)
    by (symmetry; apply count_run_all, Hu').
  apply try_greedy_at.
  { unfold g3. simpl. discriminate. }
  { apply firstn_all. }
  rewrite skipn_all. reflexivity.
Qed.

Lemma search_unfold ps s :
  search ps s = match match_here ps s with
                | Some gs => Some gs
                | None => match s with [] => None | _ :: t => search ps t end
                end.
Proof. destruct s; reflexivity. Qed.

(** X1: the string printed by [IngredientResponse.__str__] parses back with
    [CreateIngredientRequest.from_string] to the same name and unit, and to the
    value of the printed quantity, when name and unit are letters and spaces
    with no surrounding blanks and the quantity text is digits and dots. *)
Theorem ingredient_str_roundtrip name quantity_repr unit :
  forallb letter_or_space (list_ascii_of_string name) = true ->
  strip (list_ascii_of_string name) = list_ascii_of_string name ->
  forallb letter_or_space (list_ascii_of_string unit) = true ->
  strip (list_ascii_of_string unit) = list_ascii_of_string unit ->
  list_ascii_of_string quantity_repr <> [] ->
  forallb digit_or_dot (list_ascii_of_string quantity_repr) = true ->
  parse_ingredient (ingredient_response_str name quantity_repr unit) =
  match parse_float quantity_repr with
  | Some q => inr (mkCreateIngredientRequest name q unit)
  | None => inl FloatParsing
  end.
Proof.
  intros Hn Sn Hu Su Hq Dq.
  unfold parse_ingredient, from_string, ingredient_response_str.
  rewrite !list_ascii_of_string_append. change (list_ascii_of_string " ") with [" "%char]; simpl app.
  rewrite search_unfold, match_here_str by assumption.
  rewrite strip_trailing_space, strip_leading_space, Sn, Su, !string_of_list_ascii_of_string.
  reflexivity.
Qed.

(** X2: a parsed ingredient's name and unit consist of letters and spaces
    only and carry no leading or trailing whitespace. *)
Theorem parse_ingredient_fields_clean data r :
  parse_ingredient data = inr r ->
  forallb letter_or_space (list_ascii_of_string (cir_name r)) = true /\
  strip (list_ascii_of_string (cir_name r)) = list_ascii_of_string (cir_name r) /\
  forallb letter_or_space (list_ascii_of_string (cir_unit r)) = true /\
  strip (list_ascii_of_string (cir_unit r)) = list_ascii_of_string (cir_unit r).
Proof.
  unfold parse_ingredient, from_string.
  destruct (search INGREDIENT_REGEX (list_ascii_of_string data)) as [gs|] eqn:S;
    [|discriminate].
  destruct (search_leftmost _ _ S) as (pre & g1 & g2 & g3 & post & -> & Hm).
  destruct Hm as (_ & _ & L1 & _ & _ & _ & L3 & _).
  simpl. destruct (parse_float _); [|discriminate]. intros H. inversion H; subst r. simpl.
  rewrite !list_ascii_of_string_of_list_ascii, !strip_idem.
  split_conj; try reflexivity; apply forallb_strip; assumption.
Qed.

(** X3: a quantity parsed from an ingredient line is never negative. *)
Theorem parse_ingredient_quantity_nonneg data r :
  parse_ingredient data = inr r -> (0 <= cir_quantity r)%Q.
Proof.
  unfold parse_ingredient. destruct (from_string data) as [e|f]; [discriminate|].
  destruct (parse_float (f_quantity f)) as [q|] eqn:P; [|discriminate].
  intros H. inversion H; subst r. simpl. exact (parse_float_nonneg _ _ P).
Qed.

(** * Further properties of [create] and [update] *)

Lemma create_ingredients_spec ings s ris pending s1 :
  create_ingredients ings s = (inr (ris, pending), s1) ->
  db_recipes (sess_db s1) = db_recipes (sess_db s) /\
  db_ingredients (sess_db s1) = db_ingredients (sess_db s) /\
  next_of s <= next_of s1 /\
  map as_request ris = ings /\
  map ing_name pending = filter (absent_in (sess_db s)) (map cir_name ings) /\
  (forall i, In i pending -> find_ingredient (sess_db s) (ing_name i) = None) /\
  (forall ri, In ri ris ->
     (forall i, find_ingredient (sess_db s) (ri_name ri) = Some i -> ri_ingredient ri = i) /\
     (find_ingredient (sess_db s) (ri_name ri) = None -> In (ri_ingredient ri) pending)).
Proof.
  revert s ris pending s1. induction ings as [|ing rest IH]; intros s ris pending s1 H.
  - simpl in H. inversion H; subst. split_conj; try reflexivity; try lia; simpl; tauto.
  - cbn [create_ingredients] in H.
    unfold bind, select_ingredient_by_name, send, read, fresh_pk, ret in H; simpl in H.
    destruct (find_ingredient (sess_db s) (cir_name ing)) as [i0|] eqn:F; simpl in H.
    + destruct (create_ingredients rest _) as [[e|[ris' pend']] s2] eqn:A; [discriminate|].
      inversion H; subst; clear H.
      destruct (IH _ _ _ _ A) as (Hr & Hi & Hn & Hreq & Hnames & Hpend & Hris).
      unfold next_of in *; simpl in *.
      apply find_ingredient_name in F as F'. destruct F' as [Fn _].
      split_conj; try assumption; try lia.
      * simpl. rewrite Hreq. unfold as_request, ri_name. simpl. rewrite Fn. destruct ing; reflexivity.
      * simpl. unfold absent_in at 1. rewrite F. exact Hnames.
      * intros ri [<-|Hri].
        -- unfold ri_name. simpl. rewrite Fn, F. split; [congruence | discriminate].
        -- exact (Hris ri Hri).
    + destruct (create_ingredients rest _) as [[e|[ris' pend']] s2] eqn:A; [discriminate|].
      inversion H; subst; clear H.
      destruct (IH _ _ _ _ A) as (Hr & Hi & Hn & Hreq & Hnames & Hpend & Hris).
      unfold next_of in *; simpl in *.
      split_conj; try assumption; try lia.
      * simpl. rewrite Hreq. destruct ing; reflexivity.
      * simpl. unfold absent_in at 1. rewrite F. simpl. f_equal. exact Hnames.
      * intros i [<-|Hi']; [exact F | exact (Hpend i Hi')].
      * intros ri [<-|Hri].
        -- unfold ri_name. simpl. rewrite F. split; [discriminate | now left].
        -- destruct (Hris ri Hri) as [H1 H2]. split; [exact H1|]. intros Hn'. right. auto.
Qed.

Lemma create_step d u s ris pending s1 :
  find_recipe_by_name (sess_db s) (crr_name d) u = None ->
  create_ingredients (crr_ingredients d)
    (mkSession (sess_db s) (sess_log s ++ [SelectRecipeByName (crr_name d) u])) =
    (inr (ris, pending), s1) ->
  let r := mkStoredRecipe (next_of s1) (crr_name d) (crr_instructions d) u ris in
  let d1 := save_db r (mkDb (db_recipes (sess_db s1)) (db_ingredients (sess_db s1) ++ pending)
                         (S (next_of s1))) in
  create d u s =
  (if flush_ok d1 then inr r else inl IntegrityError,
   mkSession d1 (sess_log s1 ++ [FlushStmt])).
Proof.
  intros F A. unfold create, bind, select_recipe_by_name, send, read, raise. simpl.
  rewrite F, A.
  unfold fresh_pk, save_recipe, modify, flush, bind, send, read, ret, raise, flush_ok. simpl.
  destruct (_ && _); reflexivity.
Qed.

Lemma create_inv d u s r s' :
  create d u s = (inr r, s') ->
  exists ris pending s1,
    find_recipe_by_name (sess_db s) (crr_name d) u = None /\
    create_ingredients (crr_ingredients d)
      (mkSession (sess_db s) (sess_log s ++ [SelectRecipeByName (crr_name d) u])) =
      (inr (ris, pending), s1) /\
    r = mkStoredRecipe (next_of s1) (crr_name d) (crr_instructions d) u ris /\
    sess_db s' = save_db r (mkDb (db_recipes (sess_db s1)) (db_ingredients (sess_db s1) ++ pending)
                           (S (next_of s1))).
Proof.
  intros C. destruct (find_recipe_by_name (sess_db s) (crr_name d) u) as [r0|] eqn:F.
  { unfold create, bind, select_recipe_by_name, send, read, raise in C. simpl in C.
    rewrite F in C. discriminate. }
  destruct (create_ingredients_total (crr_ingredients d)
              (mkSession (sess_db s) (sess_log s ++ [SelectRecipeByName (crr_name d) u])))
    as ([ris pending] & s1 & A).
  rewrite (create_step _ _ _ _ _ _ F A) in C.
  destruct (flush_ok _); [|discriminate]. inversion C; subst.
  exists ris, pending, s1. auto.
Qed.

Lemma find_app_none {A} (f : A -> bool) l x :
  find f l = None -> f x = true -> find f (l ++ [x]) = Some x.
Proof.
  induction l as [|y t IH]; simpl; intros F Hx; [rewrite Hx; reflexivity|].
  destruct (f y); [discriminate | exact (IH F Hx)].
Qed.

Lemma find_recipe_by_name_save r d name u :
  find_recipe_by_name d name u = None ->
  recipe_name r = name -> recipe_user_pk r = u ->
  find_recipe_by_name (save_db r d) name u = Some r.
Proof.
  unfold find_recipe_by_name, save_db. simpl. intros F <- <-.
  destruct (existsb _ _) eqn:Ex.
  - revert F Ex. induction (db_recipes d) as [|x t IH]; simpl; intros F Ex; [discriminate|].
    destruct (String.eqb (recipe_name x) (recipe_name r) && (recipe_user_pk x =? recipe_user_pk r))
      eqn:E; [discriminate|].
    destruct (recipe_pk x =? recipe_pk r).
    + simpl. rewrite String.eqb_refl, Nat.eqb_refl. reflexivity.
    + simpl. rewrite E. apply IH; assumption.
  - apply find_app_none; [exact F|]. rewrite String.eqb_refl, Nat.eqb_refl. reflexivity.
Qed.

(** X4: a successful [create] stores the request's name, instructions and
    ingredient lines under the user, and [get_by_name] then returns it. *)
Theorem create_stores_request d u s r s' :
  create d u s = (inr r, s') ->
  recipe_name r = crr_name d /\ recipe_instructions r = crr_instructions d /\
  recipe_user_pk r = u /\
  map as_request (recipe_ingredients r) = crr_ingredients d /\
  find_recipe_by_name (sess_db s') (crr_name d) u = Some r.
Proof.
  intros C. destruct (create_inv _ _ _ _ _ C) as (ris & pending & s1 & F & A & -> & Es).
  destruct (create_ingredients_spec _ _ _ _ _ A) as (Hr & _ & _ & Hreq & _).
  simpl. split_conj; try reflexivity; [exact Hreq|].
  rewrite Es. apply find_recipe_by_name_save; try reflexivity.
  unfold find_recipe_by_name in *. simpl. rewrite Hr. exact F.
Qed.

(** X5: [create] only appends ingredients whose name was absent, and each
    association uses the existing ingredient of that name when there is one. *)
Theorem create_reuses_ingredients d u s r s' :
  create d u s = (inr r, s') ->
  (exists created,
     db_ingredients (sess_db s') = db_ingredients (sess_db s) ++ created /\
     forall i, In i created -> find_ingredient (sess_db s) (ing_name i) = None) /\
  (forall ri, In ri (recipe_ingredients r) ->
     In (ri_ingredient ri) (db_ingredients (sess_db s')) /\
     forall i, find_ingredient (sess_db s) (ri_name ri) = Some i -> ri_ingredient ri = i).
Proof.
  intros C. destruct (create_inv _ _ _ _ _ C) as (ris & pending & s1 & F & A & -> & Es).
  destruct (create_ingredients_spec _ _ _ _ _ A) as (_ & Hi & _ & _ & _ & Hpend & Hris).
  simpl in *. rewrite Es. unfold save_db. simpl. rewrite Hi.
  split; [exists pending; split; [reflexivity | exact Hpend]|].
  intros ri Hri. destruct (Hris ri Hri) as [H1 H2]. split; [|exact H1].
  apply in_or_app. destruct (find_ingredient (sess_db s) (ri_name ri)) as [i|] eqn:Fi.
  - left. rewrite (H1 i eq_refl). apply find_ingredient_name in Fi. tauto.
  - right. auto.
Qed.

Lemma nodup_names_NoDup l : nodup_names l = true <-> NoDup l.
Proof.
  induction l as [|x t IH]; simpl; [split; [constructor | reflexivity]|].
  rewrite andb_true_iff, negb_true_iff, set_mem_false, IH. split.
  - intros [H1 H2]. constructor; assumption.
  - intros H. inversion H. auto.
Qed.

Lemma count_occ_filter f l x :
  f x = true -> count_occ string_dec (filter f l) x = count_occ string_dec l x.
Proof.
  intros Hx. induction l as [|y t IH]; simpl; [reflexivity|].
  destruct (f y) eqn:Ey; simpl; destruct (string_dec y x); subst; try congruence; auto.
Qed.

Lemma not_nodup_count l x : 2 <= count_occ string_dec l x -> nodup_names l = false.
Proof.
  intros H. destruct (nodup_names l) eqn:E; [|reflexivity]. exfalso.
  apply nodup_names_NoDup in E. rewrite (NoDup_count_occ string_dec) in E.
  specialize (E x). lia.
Qed.

(** X6: a create request naming the same new ingredient twice fails at the
    flush with an integrity error. *)
Theorem create_repeated_new_ingredient d u s n :
  find_recipe_by_name (sess_db s) (crr_name d) u = None ->
  find_ingredient (sess_db s) n = None ->
  2 <= count_occ string_dec (map cir_name (crr_ingredients d)) n ->
  fst (create d u s) = inl IntegrityError.
Proof.
  intros F Fn Hc.
  destruct (create_ingredients_total (crr_ingredients d)
              (mkSession (sess_db s) (sess_log s ++ [SelectRecipeByName (crr_name d) u])))
    as ([ris pending] & s1 & A).
  rewrite (create_step _ _ _ _ _ _ F A). simpl.
  destruct (create_ingredients_spec _ _ _ _ _ A) as (_ & Hi & _ & _ & Hnames & _).
  simpl in *. unfold flush_ok, save_db. simpl.
  replace (nodup_names (map ing_name (db_ingredients (sess_db s1) ++ pending))) with false.
  { rewrite andb_false_r. reflexivity. }
  symmetry. apply (not_nodup_count _ n).
  rewrite map_app, count_occ_app, Hnames, count_occ_filter by (unfold absent_in; rewrite Fn; reflexivity).
  lia.
Qed.

(** X7: [create] fails with an integrity error, not [RecipeAlreadyExistsError],
    when the name is used by another user's recipe. *)
Theorem create_name_taken_by_other_user d u s r0 :
  (forall x, In x (db_recipes (sess_db s)) -> recipe_pk x < db_next_pk (sess_db s)) ->
  find_recipe_by_name (sess_db s) (crr_name d) u = None ->
  In r0 (db_recipes (sess_db s)) -> recipe_name r0 = crr_name d ->
  fst (create d u s) = inl IntegrityError.
Proof.
  intros Hpk F Hr0 Hn.
  destruct (create_ingredients_total (crr_ingredients d)
              (mkSession (sess_db s) (sess_log s ++ [SelectRecipeByName (crr_name d) u])))
    as ([ris pending] & s1 & A).
  rewrite (create_step _ _ _ _ _ _ F A). simpl.
  destruct (create_ingredients_spec _ _ _ _ _ A) as (Hr & _ & Hnx & _).
  unfold next_of in Hnx. simpl in *.
  unfold flush_ok, save_db. simpl. rewrite Hr.
  replace (existsb _ (db_recipes (sess_db s))) with false.
  2:{ symmetry. apply not_true_iff_false. rewrite existsb_exists.
      intros [x [Hx E]]. apply Nat.eqb_eq in E. specialize (Hpk x Hx). unfold next_of in E. lia. }
  simpl. replace (nodup_names _) with false; [reflexivity|].
  symmetry. apply (not_nodup_count _ (crr_name d)).
  rewrite map_app, count_occ_app. simpl. destruct (string_dec (crr_name d) (crr_name d)); [|congruence].
  assert (0 < count_occ string_dec (map recipe_name (db_recipes (sess_db s))) (crr_name d)).
  { apply count_occ_In. rewrite <- Hn. apply in_map. exact Hr0. }
  lia.
Qed.

Lemma nodup_pks_NoDup l : nodup_pks l = true <-> NoDup l.
Proof.
  induction l as [|x t IH]; simpl; [split; [constructor | reflexivity]|].
  rewrite andb_true_iff, negb_true_iff, IH. split.
  - intros [H1 H2]. constructor; [|assumption]. intros Hx.
    assert (existsb (Nat.eqb x) t = true) by (apply existsb_exists; exists x; split; [exact Hx | apply Nat.eqb_refl]).
    congruence.
  - intros H. inversion H; subst. split; [|assumption].
    apply not_true_iff_false. rewrite existsb_exists. intros [y [Hy E]].
    apply Nat.eqb_eq in E. subst. contradiction.
Qed.

Lemma update_step req u s old added s1 :
  find_recipe_by_pk (sess_db s) (urr_pk req) u = Some old ->
  add_new req (to_add_of req old)
    (mkSession (sess_db s) (sess_log s ++ [SelectRecipeByPk (urr_pk req) u])) = (inr added, s1) ->
  let r := mkStoredRecipe (recipe_pk old) (urr_name req) (urr_instructions req)
             (recipe_user_pk old) (kept_of req old ++ added) in
  update req u s =
  (if flush_ok (save_db r (sess_db s1)) then inr r else inl IntegrityError,
   mkSession (save_db r (sess_db s1)) (sess_log s1 ++ [FlushStmt])).
Proof.
  intros F A. unfold update, bind, select_recipe_by_pk, send, read, raise. simpl. rewrite F.
  fold (existing_names_of old) (new_names_of req) (to_add_of req old) (kept_of req old).
  rewrite A. unfold save_recipe, modify, flush, bind, send, read, ret, raise, flush_ok. simpl.
  destruct (_ && _); reflexivity.
Qed.

Lemma find_recipe_by_pk_pk d p u old :
  find_recipe_by_pk d p u = Some old -> recipe_pk old = p /\ In old (db_recipes d).
Proof.
  unfold find_recipe_by_pk. intros H. apply find_some in H as [H E].
  apply andb_true_iff in E as [E _]. apply Nat.eqb_eq in E. auto.
Qed.

Lemma NoDup_map_eq {A B} (f : A -> B) l a b :
  NoDup (map f l) -> In a l -> In b l -> f a = f b -> a = b.
Proof.
  induction l as [|x t IH]; simpl; [tauto|]. intros H Ha Hb E. inversion H; subst.
  destruct Ha as [<-|Ha], Hb as [<-|Hb]; auto.
  - exfalso. apply H2. rewrite E. apply in_map. exact Hb.
  - exfalso. apply H2. rewrite <- E. apply in_map. exact Ha.
Qed.

Lemma save_db_recipes r d :
  existsb (fun x => recipe_pk x =? recipe_pk r) (db_recipes d) = true ->
  db_recipes (save_db r d) =
  map (fun x => if recipe_pk x =? recipe_pk r then r else x) (db_recipes d).
Proof. unfold save_db. simpl. intros ->. reflexivity. Qed.

(** X8: renaming a recipe by [update] to the name of another recipe fails at
    the flush with an integrity error. *)
Theorem update_name_taken req u s old x :
  find_recipe_by_pk (sess_db s) (urr_pk req) u = Some old ->
  In x (db_recipes (sess_db s)) -> recipe_pk x <> urr_pk req ->
  recipe_name x = urr_name req ->
  fst (update req u s) = inl IntegrityError.
Proof.
  intros F Hx Hpk Hn.
  destruct (add_new_total req (to_add_of req old)
              (mkSession (sess_db s) (sess_log s ++ [SelectRecipeByPk (urr_pk req) u])))
    as (added & s1 & A).
  rewrite (update_step _ _ _ _ _ _ F A). simpl.
  destruct (add_new_spec _ _ _ _ _ A) as (Hr & _). simpl in Hr.
  destruct (find_recipe_by_pk_pk _ _ _ _ F) as [Hop Hold].
  set (r := mkStoredRecipe (recipe_pk old) (urr_name req) (urr_instructions req)
              (recipe_user_pk old) (kept_of req old ++ added)).
  destruct (flush_ok (save_db r (sess_db s1))) eqn:E; [|reflexivity]. exfalso.
  unfold flush_ok in E. apply andb_true_iff in E as [E _]. apply nodup_names_NoDup in E.
  rewrite save_db_recipes in E.
  2:{ apply existsb_exists. exists old. rewrite Hr. split; [exact Hold | apply Nat.eqb_refl]. }
  rewrite Hr in E. simpl in E.
  assert (Ex : x = r).
  { apply (NoDup_map_eq _ _ _ _ E).
    - apply in_map_iff. exists x. split; [|exact Hx].
      destruct (recipe_pk x =? recipe_pk old) eqn:P; [|reflexivity].
      apply Nat.eqb_eq in P. congruence.
    - apply in_map_iff. exists old. split; [|exact Hold]. rewrite Nat.eqb_refl. reflexivity.
    - rewrite Hn. reflexivity. }
  apply Hpk. rewrite Ex, <- Hop. reflexivity.
Qed.

(** X9: a successful [update] keeps every other recipe unchanged. *)
Theorem update_keeps_other_recipes req u s r s' x :
  update req u s = (inr r, s') ->
  In x (db_recipes (sess_db s)) -> recipe_pk x <> urr_pk req ->
  In x (db_recipes (sess_db s')).
Proof.
  intros U Hx Hpk.
  destruct (update_inv _ _ _ _ _ U) as (old & s1 & added & F & A & Er & Es).
  destruct (add_new_spec _ _ _ _ _ A) as (Hr & _). simpl in Hr.
  destruct (find_recipe_by_pk_pk _ _ _ _ F) as [Hop _].
  rewrite Es. unfold save_db. simpl. rewrite Hr.
  destruct (existsb _ _).
  - apply in_map_iff. exists x. split; [|exact Hx].
    destruct (recipe_pk x =? recipe_pk r) eqn:P; [|reflexivity].
    apply Nat.eqb_eq in P. rewrite Er in P. simpl in P. congruence.
  - apply in_or_app. left. exact Hx.
Qed.

Lemma NoDup_snoc {A} (l : list A) x : NoDup l -> ~ In x l -> NoDup (l ++ [x]).
Proof.
  intros H Hx. apply (Permutation_NoDup (Permutation_cons_append l x)).
  constructor; assumption.
Qed.

Lemma find_ingredient_none_notin d n :
  find_ingredient d n = None -> ~ In n (map ing_name (db_ingredients d)).
Proof.
  unfold find_ingredient. intros F Hn. apply in_map_iff in Hn as [i [<- Hi]].
  apply (find_none _ _ F) in Hi. rewrite String.eqb_refl in Hi. discriminate.
Qed.

Lemma add_new_nodup req l s added s1 :
  add_new req l s = (inr added, s1) ->
  NoDup (map ing_name (db_ingredients (sess_db s))) ->
  NoDup (map ing_name (db_ingredients (sess_db s1))).
Proof.
  revert s added s1. induction l as [|new rest IH]; intros s added s1 H Hs.
  - simpl in H. inversion H; subst. exact Hs.
  - simpl in H. destruct (get_ingredient (urr_ingredients req) new) as [new_i|].
    + unfold bind, select_ingredient_by_name, send, read, fresh_pk, add_ingredient, modify, ret
        in H; simpl in H.
      destruct (find_ingredient (sess_db s) (cir_name new_i)) as [i0|] eqn:F.
      * destruct (add_new req rest _) as [[e|others] s2] eqn:A; [discriminate|].
        inversion H; subst. exact (IH _ _ _ A Hs).
      * destruct (add_new req rest _) as [[e|others] s2] eqn:A; [discriminate|].
        inversion H; subst. apply (IH _ _ _ A). simpl.
        rewrite map_app. simpl. apply NoDup_snoc; [exact Hs|].
        apply find_ingredient_none_notin. exact F.
    + exact (IH _ _ _ H Hs).
Qed.

Lemma replace_nodup (L : list StoredRecipe) r :
  NoDup (map recipe_pk L) -> NoDup (map recipe_name L) ->
  (forall x, In x L -> recipe_pk x <> recipe_pk r -> recipe_name x <> recipe_name r) ->
  NoDup (map recipe_name (map (fun x => if recipe_pk x =? recipe_pk r then r else x) L)) /\
  NoDup (map recipe_pk (map (fun x => if recipe_pk x =? recipe_pk r then r else x) L)).
Proof.
  intros Hp Hn Hx. split.
  2:{ rewrite map_map. erewrite map_ext; [exact Hp|]. intros y.
      destruct (recipe_pk y =? recipe_pk r) eqn:E; [apply Nat.eqb_eq in E; auto | reflexivity]. }
  induction L as [|y t IH]; simpl; [constructor|].
  inversion Hp; subst. inversion Hn; subst.
  assert (IH' : NoDup (map recipe_name (map (fun x => if recipe_pk x =? recipe_pk r then r else x) t)))
    by (apply IH; auto; intros z Hz; apply Hx; now right).
  constructor; [|exact IH'].
  rewrite map_map. intros Hin. apply in_map_iff in Hin as [z [Ez Hz]].
  destruct (recipe_pk y =? recipe_pk r) eqn:Ey, (recipe_pk z =? recipe_pk r) eqn:Ez'.
  - apply Nat.eqb_eq in Ey, Ez'. apply H1. rewrite Ey, <- Ez'. apply in_map. exact Hz.
  - apply Nat.eqb_neq in Ez'. apply (Hx z (or_intror Hz) Ez'). exact Ez.
  - apply Nat.eqb_neq in Ey. apply (Hx y (or_introl eq_refl) Ey). symmetry. exact Ez.
  - apply H3. rewrite <- Ez. apply in_map. exact Hz.
Qed.

(** X10: on a consistent database, [update] of an existing recipe to a name
    no other recipe has succeeds and leaves the database consistent (unique
    recipe and ingredient names, unique recipe keys). *)
Theorem update_preserves_wf req u s old :
  wf_db (sess_db s) = true ->
  find_recipe_by_pk (sess_db s) (urr_pk req) u = Some old ->
  (forall x, In x (db_recipes (sess_db s)) -> recipe_pk x <> urr_pk req ->
     recipe_name x <> urr_name req) ->
  exists r s', update req u s = (inr r, s') /\ wf_db (sess_db s') = true.
Proof.
  intros W F Hfree.
  unfold wf_db, flush_ok in W. apply andb_true_iff in W as [W Hp].
  apply andb_true_iff in W as [Hn Hi].
  rewrite nodup_names_NoDup in Hn, Hi. rewrite nodup_pks_NoDup in Hp.
  destruct (add_new_total req (to_add_of req old)
              (mkSession (sess_db s) (sess_log s ++ [SelectRecipeByPk (urr_pk req) u])))
    as (added & s1 & A).
  destruct (add_new_spec _ _ _ _ _ A) as (Hr & _). simpl in Hr.
  pose proof (add_new_nodup _ _ _ _ _ A Hi) as Hi1.
  destruct (find_recipe_by_pk_pk _ _ _ _ F) as [Hop Hold].
  set (r := mkStoredRecipe (recipe_pk old) (urr_name req) (urr_instructions req)
              (recipe_user_pk old) (kept_of req old ++ added)).
  assert (Hex : existsb (fun x => recipe_pk x =? recipe_pk r) (db_recipes (sess_db s1)) = true).
  { apply existsb_exists. exists old. rewrite Hr. split; [exact Hold | apply Nat.eqb_refl]. }
  destruct (replace_nodup (db_recipes (sess_db s)) r Hp Hn) as [N1 N2].
  { intros x Hx Hpk. apply Hfree; [exact Hx|]. simpl in Hpk. congruence. }
  assert (Wf : flush_ok (save_db r (sess_db s1)) = true /\
               nodup_pks (map recipe_pk (db_recipes (save_db r (sess_db s1)))) = true).
  { unfold flush_ok. rewrite save_db_recipes by exact Hex. rewrite Hr.
    simpl. split; [apply andb_true_iff; split; apply nodup_names_NoDup; assumption|].
    apply nodup_pks_NoDup. exact N2. }
  destruct Wf as [W1 W2].
  rewrite (update_step _ _ _ _ _ _ F A). fold r. rewrite W1.
  eexists _, _. split; [reflexivity|]. unfold wf_db. apply andb_true_iff. split; assumption.
Qed.

(** * [get_all] *)

Lemma leb_cons c1 a c2 b :
  String.leb (String c1 a) (String c2 b) = true <->
  (N_of_ascii c1 < N_of_ascii c2)%N \/ (c1 = c2 /\ String.leb a b = true).
Proof.
  unfold String.leb. simpl. unfold Ascii.compare.
  destruct (N.compare_spec (N_of_ascii c1) (N_of_ascii c2)) as [E|L|G].
  - assert (c1 = c2) by (rewrite <- (ascii_N_embedding c1), <- (ascii_N_embedding c2), E; reflexivity).
    subst. split; [intros H; right; auto | intros [H|[_ H]]; [lia | exact H]].
  - split; [intros _; left; exact L | reflexivity].
  - split; [discriminate|]. intros [H|[-> _]]; lia.
Qed.

Lemma string_leb_trans a b c :
  String.leb a b = true -> String.leb b c = true -> String.leb a c = true.
Proof.
  revert b c. induction a as [|x a IH]; intros b c H1 H2; [destruct c; reflexivity|].
  destruct b as [|y b]; [discriminate|]. destruct c as [|z c]; [destruct b; discriminate|].
  apply leb_cons in H1, H2. apply leb_cons.
  destruct H1 as [H1|[<- H1]], H2 as [H2|[<- H2]].
  - left. lia.
  - left. exact H1.
  - left. exact H2.
  - right. split; [reflexivity | exact (IH _ _ H1 H2)].
Qed.

Lemma string_leb_not a b : String.leb a b = false -> String.leb b a = true.
Proof. intros H. destruct (String.leb_total a b); congruence. Qed.

Lemma insert_by_In {A} (key : A -> string) r l x : In x (insert_by key r l) <-> In x (r :: l).
Proof.
  induction l as [|y t IH]; simpl; [tauto|].
  destruct (String.leb _ _); simpl; [tauto|]. rewrite IH. simpl. tauto.
Qed.

Lemma order_by_In {A} (key : A -> string) l x : In x (order_by key l) <-> In x l.
Proof.
  induction l as [|y t IH]; simpl; [tauto|]. rewrite insert_by_In. simpl. rewrite IH. tauto.
Qed.

Lemma insert_by_sorted {A} (key : A -> string) r l :
  StronglySorted (key_le key) l -> StronglySorted (key_le key) (insert_by key r l).
Proof.
  induction l as [|y t IH]; intros H; simpl.
  - repeat constructor.
  - inversion H as [|? ? Ht Hy]; subst.
    destruct (String.leb (key r) (key y)) eqn:E.
    + constructor; [exact H|]. constructor; [exact E|].
      apply Forall_forall. intros z Hz. apply (string_leb_trans _ (key y)); [exact E|].
      rewrite Forall_forall in Hy. exact (Hy z Hz).
    + constructor; [exact (IH Ht)|]. apply Forall_forall. intros z Hz.
      apply insert_by_In in Hz as [<-|Hz].
      * apply string_leb_not. exact E.
      * rewrite Forall_forall in Hy. exact (Hy z Hz).
Qed.

Lemma order_by_sorted {A} (key : A -> string) l : StronglySorted (key_le key) (order_by key l).
Proof. induction l; simpl; [constructor | apply insert_by_sorted; assumption]. Qed.

Lemma filter_strongly_sorted {A} (R : A -> A -> Prop) f l :
  StronglySorted R l -> StronglySorted R (filter f l).
Proof.
  induction l as [|x t IH]; intros H; simpl; [constructor|].
  inversion H as [|? ? Ht Hx]; subst. destruct (f x); [|exact (IH Ht)].
  constructor; [exact (IH Ht)|]. rewrite Forall_forall in *. intros y Hy.
  apply filter_In in Hy. apply Hx. tauto.
Qed.

(** X11: [get_all] returns exactly the user's recipes (with at least one
    ingredient when [has_ingredients] is set), ordered by name. *)
Theorem get_all_spec d u h :
  (forall r, In r (get_all d u h) <->
     In r (db_recipes d) /\ recipe_user_pk r = u /\ (h = true -> recipe_ingredients r <> [])) /\
  Sorted (key_le recipe_name) (get_all d u h).
Proof.
  split.
  - intros r. unfold get_all. destruct h.
    + rewrite filter_In, order_by_In, filter_In, Nat.eqb_eq, Nat.ltb_lt.
      split.
      * intros [[Hr Hu] Hl]. split_conj; auto. intros _ E. rewrite E in Hl. simpl in Hl. lia.
      * intros (Hr & Hu & Hl). split; [auto|]. destruct (recipe_ingredients r); [|simpl; lia].
        exfalso. apply Hl; reflexivity.
    + rewrite order_by_In, filter_In, Nat.eqb_eq. split.
      * intros [Hr Hu]. split; [exact Hr|split; [exact Hu|discriminate]].
      * intros (Hr & Hu & _). auto.
  - apply StronglySorted_Sorted. unfold get_all. destruct h;
      [apply filter_strongly_sorted|]; apply order_by_sorted.
Qed.

(** * [is_like] *)

Lemma ascii_lower_idem c : ascii_lower (ascii_lower c) = ascii_lower c.
Proof.
  unfold ascii_lower. cbv zeta. destruct ((65 <=? nat_of_ascii c) && (nat_of_ascii c <=? 90)) eqn:E.
  - apply andb_true_iff in E as [E1 E2]. apply Nat.leb_le in E1, E2.
    rewrite nat_ascii_embedding by lia.
    replace ((65 <=? nat_of_ascii c + 32) && (nat_of_ascii c + 32 <=? 90)) with false; [reflexivity|].
    symmetry. apply andb_false_iff. right. apply Nat.leb_gt. lia.
  - rewrite E. reflexivity.
Qed.

Lemma ascii_lower_wild c : not_wildcard (ascii_lower c) = not_wildcard c.
Proof.
  unfold ascii_lower. destruct ((65 <=? nat_of_ascii c) && (nat_of_ascii c <=? 90)) eqn:E; [|reflexivity].
  apply andb_true_iff in E as [E1 E2]. apply Nat.leb_le in E1, E2.
  unfold not_wildcard.
  assert (Hn : nat_of_ascii (ascii_of_nat (nat_of_ascii c + 32)) = nat_of_ascii c + 32)
    by (apply nat_ascii_embedding; lia).
  destruct (Ascii.eqb_spec (ascii_of_nat (nat_of_ascii c + 32)) "%"%char) as [H|_];
    [rewrite H in Hn; change (nat_of_ascii "%"%char) with 37 in Hn; lia|].
  destruct (Ascii.eqb_spec (ascii_of_nat (nat_of_ascii c + 32)) "_"%char) as [H|_];
    [rewrite H in Hn; change (nat_of_ascii "_"%char) with 95 in Hn; lia|].
  destruct (Ascii.eqb_spec c "%"%char) as [H|_];
    [subst; change (nat_of_ascii "%"%char) with 37 in E1; lia|].
  destruct (Ascii.eqb_spec c "_"%char) as [H|_];
    [subst; change (nat_of_ascii "_"%char) with 95 in E2; lia|].
  reflexivity.
Qed.

Lemma like_match_pct_nil p : like_match ("%"%char :: p) [] = like_match p [].
Proof. simpl. destruct (like_match p []); reflexivity. Qed.

Lemma like_match_pct_cons p c s :
  like_match ("%"%char :: p) (c :: s) = like_match p (c :: s) || like_match ("%"%char :: p) s.
Proof. reflexivity. Qed.

Lemma like_match_lit c p d s :
  not_wildcard c = true ->
  like_match (c :: p) (d :: s) = Ascii.eqb (ascii_lower c) (ascii_lower d) && like_match p s.
Proof.
  intros H. unfold not_wildcard in H. apply andb_true_iff in H as [H1 H2].
  apply negb_true_iff in H1, H2. simpl. rewrite H1, H2. reflexivity.
Qed.

Lemma like_match_lit_nil c p :
  not_wildcard c = true -> like_match (c :: p) [] = false.
Proof.
  intros H. unfold not_wildcard in H. apply andb_true_iff in H as [H1 H2].
  apply negb_true_iff in H1, H2. simpl. rewrite H1, H2. reflexivity.
Qed.

Lemma like_match_pct p s :
  like_match ("%"%char :: p) s = true <-> exists a b, s = a ++ b /\ like_match p b = true.
Proof.
  induction s as [|c s IH].
  - rewrite like_match_pct_nil. split.
    + intros H. exists [], []. auto.
    + intros (a & b & E & H). destruct a, b; try discriminate. exact H.
  - rewrite like_match_pct_cons, orb_true_iff, IH. split.
    + intros [H|(a & b & -> & H)].
      * exists [], (c :: s). auto.
      * exists (c :: a), b. auto.
    + intros ([|c' a] & b & E & H).
      * left. simpl in E. subst. exact H.
      * right. injection E as -> ->. exists a, b. auto.
Qed.

Lemma like_match_pct_end s : like_match ["%"%char] s = true.
Proof.
  apply like_match_pct. exists s, []. rewrite app_nil_r. auto.
Qed.

Lemma like_match_literal lit rest s :
  forallb not_wildcard lit = true ->
  map ascii_lower lit = lit -> map ascii_lower s = s ->
  like_match (lit ++ rest) s = true <-> exists s2, s = lit ++ s2 /\ like_match rest s2 = true.
Proof.
  revert s. induction lit as [|c lit IH]; intros s Hw Hl Hs; simpl app.
  - split; [intros H; exists s; auto | intros (s2 & -> & H); exact H].
  - simpl in Hw, Hl. apply andb_true_iff in Hw as [Hc Hw]. injection Hl as Hc' Hl.
    destruct s as [|d s].
    + rewrite like_match_lit_nil by exact Hc. split; [discriminate|]. intros (s2 & E & _). discriminate.
    + simpl in Hs. injection Hs as Hd Hs.
      rewrite like_match_lit by exact Hc. rewrite Hc', Hd, andb_true_iff, IH by assumption.
      split.
      * intros [E (s2 & -> & H)]. apply Ascii.eqb_eq in E. subst. exists s2. auto.
      * intros (s2 & E & H). injection E as -> ->. split; [apply Ascii.eqb_refl|]. exists s2. auto.
Qed.

Lemma sql_lower_lowered s : map ascii_lower (sql_lower s) = sql_lower s.
Proof.
  unfold sql_lower. rewrite map_map. apply map_ext. apply ascii_lower_idem.
Qed.

Lemma sql_lower_pattern snippet :
  sql_lower ("%" ++ snippet ++ "%") = "%"%char :: sql_lower snippet ++ ["%"%char].
Proof.
  unfold sql_lower. rewrite !list_ascii_of_string_append. simpl. rewrite map_app. reflexivity.
Qed.

Lemma like_match_self l b :
  map ascii_lower l = l -> like_match (l ++ ["%"%char]) (l ++ b) = true.
Proof.
  induction l as [|c l IH]; intros Hl; simpl app.
  - apply like_match_pct_end.
  - simpl in Hl. injection Hl as Hc Hl.
    destruct (not_wildcard c) eqn:W.
    + rewrite like_match_lit by exact W. rewrite Ascii.eqb_refl. simpl. apply IH, Hl.
    + unfold not_wildcard in W. apply andb_false_iff in W as [W|W]; apply negb_false_iff in W;
        apply Ascii.eqb_eq in W; subst c.
      * apply like_match_pct. exists ["%"%char], (l ++ b). split; [reflexivity|]. apply IH, Hl.
      * simpl. apply IH, Hl.
Qed.

Lemma is_like_contains_match snippet name :
  (exists a b, sql_lower name = a ++ sql_lower snippet ++ b) ->
  like_match (sql_lower ("%" ++ snippet ++ "%")) (sql_lower name) = true.
Proof.
  intros (a & b & E). rewrite sql_lower_pattern, like_match_pct.
  exists a, (sql_lower snippet ++ b). split; [exact E|].
  apply like_match_self, sql_lower_lowered.
Qed.

Lemma is_like_literal_match snippet name :
  forallb not_wildcard (list_ascii_of_string snippet) = true ->
  like_match (sql_lower ("%" ++ snippet ++ "%")) (sql_lower name) = true <->
  exists a b, sql_lower name = a ++ sql_lower snippet ++ b.
Proof.
  intros Hw. split; [|apply is_like_contains_match].
  rewrite sql_lower_pattern, like_match_pct. intros (a & b & E & H).
  apply like_match_literal in H as (s2 & -> & _).
  - exists a, s2. exact E.
  - unfold sql_lower. rewrite forallb_forall in *. intros c Hc.
    apply in_map_iff in Hc as (c0 & <- & Hc0). rewrite ascii_lower_wild. apply Hw, Hc0.
  - apply sql_lower_lowered.
  - pose proof (sql_lower_lowered name) as L. rewrite E in L. clear E H.
    induction a as [|c a IHa]; [exact L|]. simpl in L. injection L as _ L. apply IHa, L.
Qed.

(** X12: [is_like] returns every recipe of the user whose name contains the
    snippet, ignoring ASCII case. *)
Theorem is_like_finds_containing d snippet u r :
  In r (db_recipes d) -> recipe_user_pk r = u ->
  (exists a b, sql_lower (recipe_name r) = a ++ sql_lower snippet ++ b) ->
  In r (is_like d snippet u).
Proof.
  intros Hr Hu Hc. unfold is_like. apply filter_In. split; [exact Hr|].
  rewrite is_like_contains_match by exact Hc. rewrite Hu, Nat.eqb_refl. reflexivity.
Qed.

(** X13: for a snippet without [%] or [_], [is_like] returns exactly the
    user's recipes whose name contains the snippet, ignoring ASCII case. *)
Theorem is_like_literal_spec d snippet u r :
  forallb not_wildcard (list_ascii_of_string snippet) = true ->
  In r (is_like d snippet u) <->
  In r (db_recipes d) /\ recipe_user_pk r = u /\
  (exists a b, sql_lower (recipe_name r) = a ++ sql_lower snippet ++ b).
Proof.
  intros Hw. unfold is_like. rewrite filter_In, andb_true_iff, is_like_literal_match by exact Hw.
  rewrite Nat.eqb_eq. tauto.
Qed.

(** * Validation and anchors *)

(** X14: a recipe created from a request accepted by
    [both_or_neither_ingredients_and_instructions] has ingredients exactly
    when it has instructions. *)
Theorem validated_create_ingredients_iff_instructions d u s r s' :
  both_or_neither_ingredients_and_instructions d = Some d ->
  create d u s = (inr r, s') ->
  (recipe_ingredients r = [] <-> recipe_instructions r = EmptyString).
Proof.
  intros V C. destruct (create_inv _ _ _ _ _ C) as (ris & pending & s1 & F & A & -> & Es).
  destruct (create_ingredients_spec _ _ _ _ _ A) as (_ & _ & _ & Hreq & _).
  unfold both_or_neither_ingredients_and_instructions in V. simpl. rewrite <- Hreq in V.
  destruct ris as [|ri ris]; simpl in V;
    destruct (String.eqb_spec (crr_instructions d) EmptyString) as [E|E]; simpl in V;
    try discriminate; split; intros H; try reflexivity; try exact E; try discriminate; contradiction.
Qed.

(** X15: a recipe's anchor contains no space and has the length of its name. *)
Theorem anchor_no_space name :
  ~ In " "%char (list_ascii_of_string (anchor name)) /\ String.length (anchor name) = String.length name.
Proof.
  induction name as [|c rest [IH1 IH2]]; simpl; [split; [tauto | reflexivity]|].
  split; [|rewrite IH2; reflexivity].
  intros [E|H]; [|exact (IH1 H)].
  destruct (Ascii.eqb_spec c " "%char) as [_|N]; [discriminate | exact (N E)].
Qed.

(** X16: two recipe names without hyphens have the same anchor only if they
    are equal. *)
Theorem anchor_injective a b :
  ~ In "-"%char (list_ascii_of_string a) -> ~ In "-"%char (list_ascii_of_string b) ->
  anchor a = anchor b -> a = b.
Proof.
  revert b. induction a as [|c a IH]; intros [|d b] Ha Hb E; simpl in *; try discriminate; [reflexivity|].
  injection E as Ec E. f_equal; [|apply IH; tauto].
  destruct (Ascii.eqb_spec c " "%char) as [->|Nc], (Ascii.eqb_spec d " "%char) as [->|Nd];
    try reflexivity; subst; tauto.
Qed.

(** * Users, timings and planned days *)

Import OtherRepos.


Lemma flush_store_ok {A} (a : A) st : store_flush_ok st = true -> flush_store a st = (inr a, st).
Proof. unfold flush_store. intros ->. reflexivity. Qed.

(** X17: on a consistent store, [UserRepository.create] with an unused name
    succeeds and [get_by_name] then returns the new user. *)
Theorem create_user_then_get n st :
  store_flush_ok st = true -> get_by_name n st = None ->
  exists u st', create_user n st = (inr u, st') /\ user_name u = n /\
    get_by_name n st' = Some u /\ store_flush_ok st' = true.
Proof.
  intros Hok Hn. unfold create_user. rewrite Hn.
  set (u := mkUser (st_next_pk st) n).
  set (st' := mkStore (st_users st ++ [u]) (st_timings st) (st_plans st) (S (st_next_pk st))).
  assert (Hok' : store_flush_ok st' = true).
  { unfold store_flush_ok in *. apply andb_true_iff in Hok as [H1 H2].
    simpl. rewrite H2, andb_true_r, map_app. apply nodup_names_NoDup.
    apply NoDup_snoc; [apply nodup_names_NoDup, H1|]. simpl.
    intros Hin. apply in_map_iff in Hin as (x & Hx & Hin).
    unfold get_by_name in Hn. apply (find_none _ _ Hn) in Hin. rewrite Hx, String.eqb_refl in Hin.
    discriminate. }
  exists u, st'. rewrite flush_store_ok by exact Hok'. split_conj; try reflexivity; try exact Hok'.
  unfold get_by_name. simpl. apply find_app_none; [exact Hn|]. apply String.eqb_refl.
Qed.

Lemma find_map_same {A} (f : A -> bool) (g : A -> A) l :
  (forall x, In x l -> f (g x) = f x) -> find f (map g l) = option_map g (find f l).
Proof.
  induction l as [|x t IH]; intros H; simpl; [reflexivity|].
  rewrite H by (left; reflexivity). destruct (f x); [reflexivity|].
  apply IH. intros y Hy. apply H. right. exact Hy.
Qed.

Lemma map_replace_same {A B} (key : A -> nat) (h : A -> B) (l : list A) x0 x' :
  NoDup (map key l) -> In x0 l -> h x' = h x0 ->
  map h (map (fun x => if key x =? key x0 then x' else x) l) = map h l.
Proof.
  intros Hnd Hin Hh. rewrite map_map. apply map_ext_in. intros x Hx.
  destruct (Nat.eqb_spec (key x) (key x0)) as [E|_]; [|reflexivity].
  rewrite (NoDup_map_eq key l x x0 Hnd Hx Hin E). exact Hh.
Qed.

Lemma add_timings_wf tc u st :
  timings_wf st = true -> get_timings u st = None ->
  timings_wf (snd (add_timings tc u st)) = true /\
  get_timings u (snd (add_timings tc u st)) = Some (fst (add_timings tc u st)).
Proof.
  unfold timings_wf, get_timings, add_timings. simpl. intros H Hn.
  apply andb_true_iff in H as [H H3]. apply andb_true_iff in H as [H1 H2].
  rewrite forallb_forall in H3. split.
  - rewrite !map_app. simpl. apply andb_true_iff; split; [apply andb_true_iff; split|].
    + apply nodup_pks_NoDup, NoDup_snoc; [apply nodup_pks_NoDup, H1|].
      intros Hin. apply in_map_iff in Hin as (x & Hx & Hin). apply H3, Nat.ltb_lt in Hin. lia.
    + apply nodup_pks_NoDup, NoDup_snoc; [apply nodup_pks_NoDup, H2|].
      intros Hin. apply in_map_iff in Hin as (x & Hx & Hin). apply (find_none _ _ Hn) in Hin.
      rewrite Hx, Nat.eqb_refl in Hin. discriminate.
    + apply forallb_forall. intros x Hx. apply in_app_or in Hx as [Hx|[<-|[]]].
      * apply H3, Nat.ltb_lt in Hx. apply Nat.ltb_lt. lia.
      * apply Nat.ltb_lt. simpl. lia.
  - apply find_app_none; [exact Hn|]. apply Nat.eqb_refl.
Qed.

(** X18: [TimingsRepository.create] and [update] keep at most one timing per
    user, and [get] then returns the timing written, with the given steps and
    finish time. *)
Theorem timings_write_keeps_one tc u st t st' :
  timings_wf st = true ->
  create_timings tc u st = (inr t, st') \/ update_timings tc u st = (inr t, st') ->
  timings_wf st' = true /\ get_timings u st' = Some t /\
  timings_user_pk t = u /\ timings_finish_time t = tc_finish_time tc /\ timings_steps t = tc_steps_json tc.
Proof.
  intros Hwf Hop.
  assert (Hnone : get_timings u st = None ->
                  (let (t0, st0) := add_timings tc u st in flush_store t0 st0) = (inr t, st') ->
                  timings_wf st' = true /\ get_timings u st' = Some t /\
                  timings_user_pk t = u /\ timings_finish_time t = tc_finish_time tc /\
                  timings_steps t = tc_steps_json tc).
  { intros Hn. destruct (add_timings_wf tc u st Hwf Hn) as [W G].
    destruct (add_timings tc u st) as [t0 st0] eqn:E. simpl in W, G.
    unfold flush_store. destruct (store_flush_ok st0); [|discriminate].
    intros Heq. injection Heq as <- <-. split_conj; try assumption;
      unfold add_timings in E; injection E as <- _; reflexivity. }
  destruct Hop as [Hop|Hop].
  - unfold create_timings in Hop. destruct (get_timings u st) eqn:Hg; [discriminate|].
    exact (Hnone eq_refl Hop).
  - unfold update_timings in Hop. destruct (get_timings u st) as [t0|] eqn:Hg; [|exact (Hnone eq_refl Hop)].
    unfold flush_store in Hop. destruct (store_flush_ok _); [|discriminate].
    injection Hop as <- <-.
    unfold get_timings in Hg. pose proof (find_some _ _ Hg) as [Hin Hu]. apply Nat.eqb_eq in Hu.
    unfold timings_wf in *. simpl.
    apply andb_true_iff in Hwf as [Hwf H3]. apply andb_true_iff in Hwf as [H1 H2].
    pose proof (nodup_pks_NoDup (map timings_pk (st_timings st))) as [N1 _].
    specialize (N1 H1).
    rewrite (map_replace_same timings_pk timings_pk) by (auto; reflexivity).
    rewrite (map_replace_same timings_pk timings_user_pk) by (auto; reflexivity).
    rewrite H1, H2. simpl. split_conj; [| |simpl; auto ..].
    + rewrite forallb_forall in *. intros x Hx. apply in_map_iff in Hx as (y & <- & Hy).
      destruct (timings_pk y =? timings_pk t0); [exact (H3 t0 Hin) | apply H3, Hy].
    + unfold get_timings. simpl. rewrite find_map_same, Hg; [simpl; rewrite Nat.eqb_refl; reflexivity|].
      intros x Hx. destruct (Nat.eqb_spec (timings_pk x) (timings_pk t0)) as [E|_]; [|reflexivity].
      rewrite (NoDup_map_eq timings_pk _ x t0 N1 Hx Hin E). reflexivity.
Qed.

Lemma filter_none {A} (f : A -> bool) l : (forall x, In x l -> f x = false) -> filter f l = [].
Proof.
  induction l as [|y t IH]; intros H; simpl; [reflexivity|].
  rewrite H by (left; reflexivity). apply IH. intros x Hx. apply H. right. exact Hx.
Qed.

Lemma filter_unique {A} (key : A -> nat) (f : A -> bool) l x0 :
  NoDup (map key l) -> In x0 l -> f x0 = true -> (forall x, f x = true -> key x = key x0) ->
  filter f l = [x0].
Proof.
  induction l as [|y t IH]; simpl; intros Hnd Hin Hf Hk; [destruct Hin|].
  inversion Hnd as [|? ? Hy Ht]; subst. destruct Hin as [<-|Hin].
  - rewrite Hf. f_equal. apply filter_none. intros x Hx. destruct (f x) eqn:E; [|reflexivity].
    exfalso. apply Hy. rewrite <- (Hk x E). apply in_map, Hx.
  - destruct (f y) eqn:E.
    + exfalso. apply Hy. rewrite (Hk y E). apply in_map, Hin.
    + apply IH; assumption.
Qed.

Lemma NoDup_snoc_inv {A} (l : list A) x : NoDup (l ++ [x]) -> ~ In x l.
Proof.
  intros H. apply (Permutation_NoDup (Permutation_sym (Permutation_cons_append l x))) in H.
  inversion H. assumption.
Qed.

(** X19: [PlanRepository.update] fails with an integrity error when another
    user has a plan on that day (the [day] column is unique across users). *)
Theorem update_plan_other_user_day day rp u st q :
  store_flush_ok st = true -> In q (st_plans st) -> plan_day q = day -> plan_user_pk q <> u ->
  fst (update_plan day rp u st) = inl StoreIntegrityError.
Proof.
  intros Hok Hq Hd Hu. unfold store_flush_ok in Hok. apply andb_true_iff in Hok as [H1 H2].
  apply nodup_pks_NoDup in H2.
  unfold update_plan. destruct (find _ (st_plans st)) as [p0|] eqn:F.
  - exfalso. apply find_some in F as [Hin E]. apply andb_true_iff in E as [E1 E2].
    apply Nat.eqb_eq in E1, E2. apply Hu.
    rewrite (NoDup_map_eq plan_day _ q p0 H2 Hq Hin) by congruence. exact E2.
  - cbv beta iota zeta. unfold store_flush_ok at 1. simpl st_plans. simpl st_users.
    replace (nodup_pks (map plan_day (st_plans st ++ [mkStoredPlannedDay (st_next_pk st) day rp u])))
      with false; [rewrite andb_false_r; reflexivity|].
    symmetry. destruct (nodup_pks _) eqn:E; [|reflexivity]. exfalso.
    apply nodup_pks_NoDup in E. rewrite map_app in E. apply NoDup_snoc_inv in E. apply E.
    simpl. rewrite <- Hd. apply in_map, Hq.
Qed.

(** X20: when no other user has planned that day, [PlanRepository.update]
    succeeds for any recipe key, and [get_range] of that day then returns
    exactly the stored plan. *)
Theorem update_plan_then_range day rp u st :
  store_flush_ok st = true -> plans_pk_ok st = true ->
  (forall q, In q (st_plans st) -> plan_day q = day -> plan_user_pk q = u) ->
  exists p st', update_plan day rp u st = (inr p, st') /\
    plan_day p = day /\ plan_recipe_pk p = rp /\ plan_user_pk p = u /\
    get_range day day u st' = [p] /\ store_flush_ok st' = true /\ plans_pk_ok st' = true.
Proof.
  intros Hok Hpk Hother. unfold store_flush_ok, plans_pk_ok in *.
  apply andb_true_iff in Hok as [H1 H2]. pose proof H2 as H2b. apply andb_true_iff in Hpk as [P1 P2].
  apply nodup_pks_NoDup in H2, P1. rewrite forallb_forall in P2.
  unfold update_plan. destruct (find _ (st_plans st)) as [p0|] eqn:F.
  - apply find_some in F as [Hin E]. apply andb_true_iff in E as [E1 E2].
    apply Nat.eqb_eq in E1, E2. cbv beta iota zeta.
    set (p' := mkStoredPlannedDay (plan_pk p0) (plan_day p0) rp (plan_user_pk p0)).
    set (g := fun x => if plan_pk x =? plan_pk p0 then p' else x).
    assert (Hin' : In p' (map g (st_plans st)))
      by (apply in_map_iff; exists p0; split; [unfold g; rewrite Nat.eqb_refl|]; auto).
    assert (D : map plan_day (map g (st_plans st)) = map plan_day (st_plans st))
      by (apply map_replace_same; auto).
    assert (K : map plan_pk (map g (st_plans st)) = map plan_pk (st_plans st))
      by (apply map_replace_same; auto).
    unfold store_flush_ok, plans_pk_ok. simpl st_plans. simpl st_users.
    rewrite D, H1, H2b. rewrite <- D in H2. rewrite <- K in P1.
    simpl. exists p', (mkStore (st_users st) (st_timings st) (map g (st_plans st)) (st_next_pk st)).
    split_conj; try reflexivity; try (simpl; congruence).
    + rewrite (filter_unique plan_pk _ _ p' P1 Hin'); [reflexivity| |].
      * simpl. rewrite Nat.eqb_refl, E2, Nat.eqb_refl. reflexivity.
      * intros x Hx. apply andb_true_iff in Hx as [Hx _]. apply Nat.eqb_eq, Hx.
    + unfold get_range. simpl st_plans. apply (filter_unique plan_day _ _ p' H2 Hin').
      * simpl. rewrite E1, E2, Nat.leb_refl, Nat.eqb_refl. reflexivity.
      * intros x Hx. apply andb_true_iff in Hx as [Hx _]. apply andb_true_iff in Hx as [Ha Hb].
        apply Nat.leb_le in Ha, Hb. simpl. lia.
    + simpl st_users; simpl st_plans. rewrite H1, D, H2b. reflexivity.
    + simpl st_plans; simpl st_next_pk. rewrite K. apply andb_true_iff. split; [apply nodup_pks_NoDup; rewrite <- K; exact P1|].
      apply forallb_forall. intros x Hx. apply in_map_iff in Hx as (y & <- & Hy). unfold g.
      destruct (plan_pk y =? plan_pk p0); [exact (P2 p0 Hin) | exact (P2 y Hy)].
  - cbv beta iota zeta.
    set (p := mkStoredPlannedDay (st_next_pk st) day rp u).
    assert (Dn : ~ In day (map plan_day (st_plans st))).
    { intros Hd. apply in_map_iff in Hd as (q & Hq & Hin). pose proof (find_none _ _ F q Hin) as Fq.
      cbv beta in Fq. rewrite Hq, Nat.eqb_refl, (Hother q Hin Hq), Nat.eqb_refl in Fq. discriminate. }
    assert (Pn : ~ In (st_next_pk st) (map plan_pk (st_plans st))).
    { intros Hd. apply in_map_iff in Hd as (q & Hq & Hin). apply P2, Nat.ltb_lt in Hin. lia. }
    assert (D : NoDup (map plan_day (st_plans st ++ [p])))
      by (rewrite map_app; apply NoDup_snoc; assumption).
    assert (K : NoDup (map plan_pk (st_plans st ++ [p])))
      by (rewrite map_app; apply NoDup_snoc; assumption).
    assert (Hin' : In p (st_plans st ++ [p])) by (apply in_or_app; right; left; reflexivity).
    unfold store_flush_ok, plans_pk_ok. simpl st_plans. simpl st_users.
    rewrite H1. apply nodup_pks_NoDup in D as D'. rewrite D'. simpl.
    exists p, (mkStore (st_users st) (st_timings st) (st_plans st ++ [p]) (S (st_next_pk st))).
    split_conj; try reflexivity.
    + rewrite (filter_unique plan_pk _ _ p K Hin'); [reflexivity| |].
      * simpl. rewrite !Nat.eqb_refl. reflexivity.
      * intros x Hx. apply andb_true_iff in Hx as [Hx _]. apply Nat.eqb_eq, Hx.
    + unfold get_range. simpl st_plans. apply (filter_unique plan_day _ _ p D Hin').
      * simpl. rewrite !Nat.leb_refl, Nat.eqb_refl. reflexivity.
      * intros x Hx. apply andb_true_iff in Hx as [Hx _]. apply andb_true_iff in Hx as [Ha Hb].
        apply Nat.leb_le in Ha, Hb. simpl. lia.
    + simpl st_users; simpl st_plans. rewrite H1, D'. reflexivity.
    + simpl st_plans; simpl st_next_pk. apply andb_true_iff. split; [apply nodup_pks_NoDup, K|].
      apply forallb_forall. intros x Hx. apply in_app_or in Hx as [Hx|[<-|[]]]; apply Nat.ltb_lt.
      * apply P2, Nat.ltb_lt in Hx. simpl. lia.
      * simpl. lia.
Qed.


Lemma sql_count_some ps : sql_count (map Some ps) = length ps.
Proof. induction ps as [|p t IH]; simpl; [reflexivity|]. unfold sql_count in *. simpl. now rewrite IH. Qed.

Lemma sql_max_day_fold vals : sql_max_day vals = fold_left max_step vals None.
Proof. reflexivity. Qed.

Lemma max_fold_spec ps acc :
  match fold_left max_step (map Some ps) acc with
  | None => acc = None /\ ps = []
  | Some x => (acc = Some x \/ In x (map plan_day ps)) /\
              (forall a, acc = Some a -> a <= x) /\ Forall (fun p => plan_day p <= x) ps
  end.
Proof.
  revert acc. induction ps as [|p t IH]; intros acc; simpl.
  - destruct acc as [x|]; [|auto]. split_conj; auto. intros a E. injection E as ->. lia.
  - specialize (IH (max_step acc (Some p))). destruct (fold_left _ _ _) as [x|].
    + destruct IH as (H1 & H2 & H3). destruct acc as [a|]; simpl in *.
      * split_conj.
        -- destruct H1 as [E|E]; [|right; right; exact E]. injection E as E.
           destruct (Nat.max_spec a (plan_day p)) as [[_ M]|[_ M]]; rewrite M in E;
             [right; left; exact E | left; subst; reflexivity].
        -- intros a' E. injection E as <-. specialize (H2 _ eq_refl). lia.
        -- constructor; [specialize (H2 _ eq_refl); lia | exact H3].
      * split_conj.
        -- destruct H1 as [E|E]; [injection E as E; right; left; exact E | right; right; exact E].
        -- discriminate.
        -- constructor; [specialize (H2 _ eq_refl); lia | exact H3].
    + destruct IH as [E _]. destruct acc; discriminate.
Qed.

Lemma NoDup_map_filter {A B} (k : A -> B) f l : NoDup (map k l) -> NoDup (map k (filter f l)).
Proof.
  induction l as [|x t IH]; simpl; intros H; [constructor|]. inversion H; subst.
  destruct (f x); simpl; [|auto]. constructor; [|auto].
  intros Hin. apply in_map_iff in Hin as (y & Hy & Hin). apply filter_In in Hin as [Hin _].
  rewrite <- Hy in *. apply H2, in_map, Hin.
Qed.

Lemma join_rows_fst plans r x : In x (join_rows plans r) -> fst x = recipe_name r.
Proof.
  unfold join_rows. destruct (filter _ plans) as [|p ps].
  - intros [<-|[]]. reflexivity.
  - intros Hx. apply in_map_iff in Hx as (q & <- & _). reflexivity.
Qed.

Lemma join_rows_nonempty plans r : join_rows plans r <> [].
Proof. unfold join_rows. destruct (filter _ plans); discriminate. Qed.

Lemma rows_names plans R n :
  In n (map fst (flat_map (join_rows plans) R)) <-> exists r, In r R /\ recipe_name r = n.
Proof.
  rewrite in_map_iff. split.
  - intros (x & <- & Hx). apply in_flat_map in Hx as (r & Hr & Hx).
    exists r. split; [exact Hr|]. symmetry. exact (join_rows_fst plans r x Hx).
  - intros (r & Hr & <-). destruct (join_rows plans r) as [|x xs] eqn:E;
      [exfalso; exact (join_rows_nonempty plans r E)|].
    exists x. split; [apply (join_rows_fst plans r); rewrite E; left; reflexivity|].
    apply in_flat_map. exists r. rewrite E. split; [exact Hr | left; reflexivity].
Qed.

Lemma rows_of_name plans R r :
  NoDup (map recipe_name R) -> In r R ->
  filter (fun x => String.eqb (fst x) (recipe_name r)) (flat_map (join_rows plans) R) = join_rows plans r.
Proof.
  induction R as [|y t IH]; simpl; intros Hnd Hin; [destruct Hin|]. inversion Hnd as [|? ? Hy Ht]; subst.
  rewrite filter_app.
  assert (Same : forall z, filter (fun x => String.eqb (fst x) (recipe_name z)) (join_rows plans z)
                           = join_rows plans z).
  { intros z. apply forallb_filter_id. apply forallb_forall. intros x Hx.
    rewrite (join_rows_fst plans z x Hx). apply String.eqb_refl. }
  destruct Hin as [<-|Hin].
  - rewrite Same. rewrite (filter_none _ (flat_map _ t)); [apply app_nil_r|].
    intros x Hx. apply in_flat_map in Hx as (z & Hz & Hx). rewrite (join_rows_fst plans z x Hx).
    apply String.eqb_neq. intros E. apply Hy. rewrite <- E. apply in_map, Hz.
  - rewrite (filter_none _ (join_rows plans y)); [simpl; apply IH; assumption|].
    intros x Hx. rewrite (join_rows_fst plans y x Hx). apply String.eqb_neq. intros E.
    apply Hy. rewrite E. apply in_map, Hin.
Qed.

Lemma join_rows_vals plans r :
  map snd (join_rows plans r) =
  match filter (fun p => plan_recipe_pk p =? recipe_pk r) plans with
  | [] => [None]
  | ps => map Some ps
  end.
Proof.
  unfold join_rows. destruct (filter _ plans) as [|p ps]; [reflexivity|].
  rewrite map_map. reflexivity.
Qed.

Lemma sorted_map_key {A B} (key : A -> string) (F : B -> A) (kb : B -> string) l :
  (forall b, key (F b) = kb b) ->
  StronglySorted (key_le kb) l -> StronglySorted (key_le key) (map F l).
Proof.
  intros HK. induction l as [|x t IH]; intros H; simpl; [constructor|].
  inversion H as [|? ? Ht Hx]; subst. constructor; [auto|].
  rewrite Forall_forall in *. intros y Hy. apply in_map_iff in Hy as (z & <- & Hz).
  unfold key_le. rewrite !HK. apply Hx, Hz.
Qed.

(** X21: [summarise] has one row per recipe of the user, ordered by name,
    with the number of plans referring to the recipe (of any user) and the
    latest planned day, or none if the recipe was never planned. *)
Theorem summarise_spec d plans u :
  nodup_names (map recipe_name (db_recipes d)) = true ->
  (forall n c m,
     In (n, c, m) (summarise d plans u) <->
     exists r, In r (db_recipes d) /\ recipe_user_pk r = u /\ recipe_name r = n /\
       let ps := filter (fun p => plan_recipe_pk p =? recipe_pk r) plans in
       c = length ps /\
       match m with
       | None => ps = []
       | Some x => In x (map plan_day ps) /\ Forall (fun p => plan_day p <= x) ps
       end) /\
  Sorted (key_le (fun x : string * nat * option nat => fst (fst x))) (summarise d plans u).
Proof.
  intros Hnd. apply nodup_names_NoDup in Hnd.
  set (R := filter (fun r => recipe_user_pk r =? u) (db_recipes d)).
  assert (HR : NoDup (map recipe_name R)) by (apply NoDup_map_filter, Hnd).
  split.
  - intros n c m. unfold summarise. fold R. rewrite in_map_iff. split.
    + intros (n' & E & Hn'). apply order_by_In, set_of_In, rows_names in Hn' as (r & Hr & <-).
      injection E as <- <- <-. pose proof Hr as Hr'. apply filter_In in Hr' as [Hr' Hu].
      apply Nat.eqb_eq in Hu.
      exists r. split_conj; auto; cbv zeta; rewrite rows_of_name, join_rows_vals by assumption.
      * destruct (filter _ plans) as [|p ps]; [reflexivity | apply sql_count_some].
      * pose proof (max_fold_spec (filter (fun p => plan_recipe_pk p =? recipe_pk r) plans) None) as MF.
        destruct (filter _ plans) as [|p ps]; [reflexivity|].
        rewrite sql_max_day_fold. destruct (fold_left _ _ _) as [x|]; [|destruct MF; discriminate].
        destruct MF as (M1 & _ & M3). split; [destruct M1; [discriminate|assumption] | exact M3].
    + intros (r & Hr & Hu & <- & Hc & Hm). exists (recipe_name r).
      split.
      * cbv beta. rewrite rows_of_name by (auto; apply filter_In; rewrite Nat.eqb_eq; auto).
        rewrite join_rows_vals.
        pose proof (max_fold_spec (filter (fun p => plan_recipe_pk p =? recipe_pk r) plans) None) as MF.
        cbv zeta in Hc, Hm.
        destruct (filter _ plans) as [|p ps]; subst c.
        -- destruct m; [destruct Hm as [[] _]|]. reflexivity.
        -- rewrite sql_count_some, sql_max_day_fold.
           destruct (fold_left _ _ _) as [x|]; [|destruct MF; discriminate].
           destruct m as [y|]; [|discriminate]. destruct MF as (M1 & _ & M3).
           destruct Hm as [Hy Hy']. destruct M1 as [M1|M1]; [discriminate|].
           apply in_map_iff in Hy as (q & <- & Hq). apply in_map_iff in M1 as (q' & <- & Hq').
           rewrite Forall_forall in M3, Hy'. specialize (M3 q Hq). specialize (Hy' q' Hq').
           rewrite (Nat.le_antisymm _ _ Hy' M3). reflexivity.
      * apply order_by_In, set_of_In, rows_names. exists r. split; [|reflexivity].
        apply filter_In. rewrite Nat.eqb_eq. auto.
  - apply StronglySorted_Sorted. unfold summarise.
    apply (sorted_map_key _ _ (fun n => n)); [reflexivity|]. apply order_by_sorted.
Qed.

Open Scope string_scope.

(** * Witnesses on the example data *)

Lemma update_keep_step_witness :
  exists r s',
    update ex_req_keep 7 ex_session = (inr r, s') /\
    In (mkRecipeIngredient 11 ex_carrot 20 "units") (recipe_ingredients r).
Proof.
  eexists _, _. split; [vm_compute; reflexivity|].
  eapply (update_keep_step ex_req_keep 7 ex_session
           _ _ ex_soup ex_carrot_assoc ex_carrot20).
  - vm_compute. reflexivity.
  - reflexivity.
  - simpl; auto.
  - simpl; auto.
  - reflexivity.
  - simpl. intros n' [<-|[]] _. reflexivity.
Defined.

Lemma update_add_step_witness :
  exists r s',
    update ex_req_add 7 ex_session = (inr r, s') /\
    (exists ri, In ri (recipe_ingredients r) /\ ri_name ri = "Salt" /\
       ri_quantity ri = 1%Q /\ ri_unit ri = "tsp" /\ 20 <= ri_pk ri /\
       (forall i, find_ingredient (sess_db ex_session) "Salt" = Some i -> ri_ingredient ri = i) /\
       (find_ingredient (sess_db ex_session) "Salt" = None ->
          20 <= ing_pk (ri_ingredient ri) /\ In (ri_ingredient ri) (db_ingredients (sess_db s')))) /\
    (forall i, In i (db_ingredients (sess_db s')) ->
       In i (db_ingredients (sess_db ex_session)) \/
       (find_ingredient (sess_db ex_session) (ing_name i) = None /\ 20 <= ing_pk i)).
Proof.
  eexists _, _. split; [vm_compute; reflexivity|].
  eapply (update_add_step ex_req_add 7 ex_session _ _ ex_soup ex_salt1).
  - vm_compute. reflexivity.
  - reflexivity.
  - simpl; auto.
  - simpl. intros n' [<-|[<-|[<-|[]]]]; [discriminate | reflexivity | discriminate].
  - simpl. intros [H|[H|[]]]; discriminate.
Defined.

Lemma update_remove_step_witness :
  exists r s',
    update ex_req_remove 7 ex_session = (inr r, s') /\
    (forall ri', In ri' (recipe_ingredients r) -> ri_name ri' <> "Delete") /\
    (forall i, In i (db_ingredients (sess_db ex_session)) -> In i (db_ingredients (sess_db s'))).
Proof.
  eexists _, _. split; [vm_compute; reflexivity|].
  eapply (update_remove_step ex_req_remove 7 ex_session _ _ ex_soup ex_delete_assoc).
  - vm_compute. reflexivity.
  - reflexivity.
  - simpl; auto.
  - simpl. intros [H|[]]; discriminate.
Defined.

Lemma update_idempotent_witness :
  exists r s',
    update ex_req_same 7 ex_session = (inr r, s') /\
    recipe_ingredients r = recipe_ingredients ex_soup /\
    db_ingredients (sess_db s') = db_ingredients (sess_db ex_session) /\
    db_next_pk (sess_db s') = db_next_pk (sess_db ex_session) /\
    ("Soup" = recipe_name ex_soup -> "Boil" = recipe_instructions ex_soup -> r = ex_soup).
Proof.
  eexists _, _. split; [vm_compute; reflexivity|].
  eapply (update_idempotent ex_req_same 7 ex_session _ _ ex_soup).
  - vm_compute. reflexivity.
  - reflexivity.
  - simpl. constructor; [simpl; intros [H|[]]; discriminate | constructor; [simpl; tauto | constructor]].
  - reflexivity.
Defined.

Lemma update_missing_recipe_witness :
  find_recipe_by_pk (sess_db ex_session) 99 7 = None /\
  update ex_req_missing 7 ex_session =
  (inl RecipeDoesNotExistError,
   mkSession (sess_db ex_session) (sess_log ex_session ++ [SelectRecipeByPk 99 7])).
Proof.
  split; [reflexivity|].
  apply (proj1 (update_missing_recipe ex_req_missing 7 ex_session)). reflexivity.
Defined.

Lemma update_sets_name_instructions_witness :
  exists r s',
    update ex_req_rename 7 ex_session = (inr r, s') /\
    recipe_name r = "Vegetable soup" /\ recipe_instructions r = "Boil for an hour" /\
    find_recipe_by_pk (sess_db s') 10 7 = Some r.
Proof.
  eexists _, _. split; [vm_compute; reflexivity|].
  eapply (update_sets_name_instructions ex_req_rename 7 ex_session).
  vm_compute. reflexivity.
Defined.

Lemma create_duplicate_rejected_witness :
  find_recipe_by_name (sess_db ex_session) "Soup" 7 = Some ex_soup /\
  create ex_create_soup 7 ex_session =
  (inl RecipeAlreadyExistsError,
   mkSession (sess_db ex_session) (sess_log ex_session ++ [SelectRecipeByName "Soup" 7])).
Proof.
  split; [reflexivity|].
  apply (proj1 (create_duplicate_rejected ex_create_soup 7 ex_session) ex_soup). reflexivity.
Defined.


Lemma ingredient_str_roundtrip_witness :
  parse_ingredient (ingredient_response_str "Olive oil" "2.5" "tbsp") =
  inr (mkCreateIngredientRequest "Olive oil" (25 # 10) "tbsp").
Proof.
  rewrite (ingredient_str_roundtrip "Olive oil" "2.5" "tbsp");
    [vm_compute; reflexivity | vm_compute; reflexivity | vm_compute; reflexivity
    | vm_compute; reflexivity | vm_compute; reflexivity | vm_compute; congruence
    | vm_compute; reflexivity].
Defined.

Lemma parse_ingredient_fields_clean_witness :
  parse_ingredient "Dried chilli 3 tsp, crushed" =
    inr (mkCreateIngredientRequest "Dried chilli" (3 # 1) "tsp") /\
  strip (list_ascii_of_string "Dried chilli") = list_ascii_of_string "Dried chilli" /\
  strip (list_ascii_of_string "tsp") = list_ascii_of_string "tsp".
Proof.
  split; [vm_compute; reflexivity|].
  destruct (parse_ingredient_fields_clean "Dried chilli 3 tsp, crushed"
              (mkCreateIngredientRequest "Dried chilli" (3 # 1) "tsp"))
    as (_ & H1 & _ & H2); [vm_compute; reflexivity|].
  split; [exact H1 | exact H2].
Defined.

Lemma parse_ingredient_quantity_nonneg_witness :
  parse_ingredient "Sugar 0.25 cup" = inr (mkCreateIngredientRequest "Sugar" (25 # 100) "cup") /\
  (0 <= 25 # 100)%Q.
Proof.
  split; [vm_compute; reflexivity|].
  apply (parse_ingredient_quantity_nonneg "Sugar 0.25 cup"
           (mkCreateIngredientRequest "Sugar" (25 # 100) "cup")).
  vm_compute. reflexivity.
Defined.

Lemma create_stores_request_witness :
  exists r s', create ex_create_curry 7 ex_session = (inr r, s') /\
    find_recipe_by_name (sess_db s') "Curry" 7 = Some r.
Proof.
  eexists _, _. split; [vm_compute; reflexivity|].
  refine (proj2 (proj2 (proj2 (proj2 (create_stores_request ex_create_curry 7 ex_session _ _ _))))).
  vm_compute. reflexivity.
Defined.

Lemma create_reuses_ingredients_witness :
  exists r s', create ex_create_curry 7 ex_session = (inr r, s') /\
    exists created, db_ingredients (sess_db s') = (db_ingredients (sess_db ex_session) ++ created)%list /\
      forall i, In i created -> find_ingredient (sess_db ex_session) (ing_name i) = None.
Proof.
  eexists _, _. split; [vm_compute; reflexivity|].
  refine (proj1 (create_reuses_ingredients ex_create_curry 7 ex_session _ _ _)).
  vm_compute. reflexivity.
Defined.

Lemma create_repeated_new_ingredient_witness :
  find_ingredient (sess_db ex_session) "Pepper" = None /\
  fst (create ex_create_pepper_twice 7 ex_session) = inl IntegrityError.
Proof.
  split; [reflexivity|].
  apply (create_repeated_new_ingredient ex_create_pepper_twice 7 ex_session "Pepper").
  - reflexivity.
  - reflexivity.
  - apply Nat.leb_le. vm_compute. reflexivity.
Defined.

Lemma create_name_taken_by_other_user_witness :
  find_recipe_by_name (sess_db ex_session) "Soup" 8 = None /\
  fst (create ex_create_soup 8 ex_session) = inl IntegrityError.
Proof.
  split; [reflexivity|].
  apply (create_name_taken_by_other_user ex_create_soup 8 ex_session ex_soup).
  - simpl. intros x [<-|[<-|[]]]; simpl; lia.
  - reflexivity.
  - simpl. auto.
  - reflexivity.
Defined.

Lemma update_name_taken_witness :
  fst (update ex_req_to_stew 7 ex_session) = inl IntegrityError.
Proof.
  apply (update_name_taken ex_req_to_stew 7 ex_session ex_soup ex_stew).
  - reflexivity.
  - simpl. auto.
  - discriminate.
  - reflexivity.
Defined.

Lemma update_keeps_other_recipes_witness :
  exists r s', update ex_req_rename 7 ex_session = (inr r, s') /\ In ex_stew (db_recipes (sess_db s')).
Proof.
  eexists _, _. split; [vm_compute; reflexivity|].
  eapply (update_keeps_other_recipes ex_req_rename 7 ex_session).
  - vm_compute. reflexivity.
  - simpl. auto.
  - discriminate.
Defined.

Lemma update_preserves_wf_witness :
  wf_db (sess_db ex_session) = true /\
  exists r s', update ex_req_rename 7 ex_session = (inr r, s') /\ wf_db (sess_db s') = true.
Proof.
  split; [vm_compute; reflexivity|].
  apply (update_preserves_wf ex_req_rename 7 ex_session ex_soup).
  - vm_compute. reflexivity.
  - reflexivity.
  - simpl. intros x [<-|[<-|[]]] H; [contradiction H; reflexivity | discriminate].
Defined.

Lemma is_like_finds_containing_witness : In ex_soup (is_like (sess_db ex_session) "OU" 7).
Proof.
  apply (is_like_finds_containing (sess_db ex_session) "OU" 7 ex_soup).
  - simpl. auto.
  - reflexivity.
  - exists ["s"%char], ["p"%char]. vm_compute. reflexivity.
Defined.

Lemma is_like_literal_spec_witness : In ex_soup (is_like (sess_db ex_session) "OU" 7).
Proof.
  apply (proj2 (is_like_literal_spec (sess_db ex_session) "OU" 7 ex_soup (eq_refl true))).
  split; [simpl; auto|]. split; [reflexivity|].
  exists ["s"%char], ["p"%char]. vm_compute. reflexivity.
Defined.

Lemma validated_create_ingredients_iff_instructions_witness :
  both_or_neither_ingredients_and_instructions ex_create_curry = Some ex_create_curry /\
  exists r s', create ex_create_curry 7 ex_session = (inr r, s') /\
    (recipe_ingredients r = [] <-> recipe_instructions r = EmptyString).
Proof.
  split; [reflexivity|]. eexists _, _. split; [vm_compute; reflexivity|].
  eapply (validated_create_ingredients_iff_instructions ex_create_curry 7 ex_session).
  - reflexivity.
  - vm_compute. reflexivity.
Defined.

Lemma anchor_injective_witness : anchor "Beef stew" <> anchor "Beef pie".
Proof.
  intros E. apply anchor_injective in E; [discriminate | simpl; intuition discriminate ..].
Defined.

Lemma create_user_then_get_witness :
  exists u st', create_user "bob" ex_store = (inr u, st') /\ get_by_name "bob" st' = Some u.
Proof.
  destruct (create_user_then_get "bob" ex_store) as (u & st' & C & _ & G & _);
    [vm_compute; reflexivity | reflexivity |].
  exists u, st'. split; assumption.
Defined.

Lemma timings_write_keeps_one_witness :
  exists t st', update_timings ex_timings 1 ex_store = (inr t, st') /\
    timings_wf st' = true /\ get_timings 1 st' = Some t.
Proof.
  eexists _, _. split; [vm_compute; reflexivity|].
  refine (match timings_write_keeps_one ex_timings 1 ex_store _ _ _ _ with
          | conj W (conj G _) => conj W G end).
  - vm_compute. reflexivity.
  - right. vm_compute. reflexivity.
Defined.

Lemma update_plan_other_user_day_witness :
  fst (update_plan 100 13 2 ex_store) = inl StoreIntegrityError.
Proof.
  apply (update_plan_other_user_day 100 13 2 ex_store (mkStoredPlannedDay 2 100 10 1)).
  - vm_compute. reflexivity.
  - simpl. auto.
  - reflexivity.
  - discriminate.
Defined.

Lemma update_plan_then_range_witness :
  exists p st', update_plan 101 13 1 ex_store = (inr p, st') /\ get_range 101 101 1 st' = [p].
Proof.
  destruct (update_plan_then_range 101 13 1 ex_store) as (p & st' & U & _ & _ & _ & R & _);
    [vm_compute; reflexivity | vm_compute; reflexivity | simpl; intros q [<-|[]] _; reflexivity |].
  exists p, st'. split; assumption.
Defined.

Lemma summarise_spec_witness : In ("Soup", 2, Some 101) (summarise (sess_db ex_session) ex_plans 7).
Proof.
  destruct (summarise_spec (sess_db ex_session) ex_plans 7) as [H _]; [vm_compute; reflexivity|].
  apply (proj2 (H "Soup" 2 (Some 101))). exists ex_soup.
  split; [simpl; auto|]. split; [reflexivity|]. split; [reflexivity|].
  vm_compute. split; [reflexivity|]. split; [auto | repeat constructor].
Defined.
